(** * Tight-binding model core: a shallow embedding

    The development follows the C++ sources of the [tbm] namespace:
    [Foundation] (site enumeration, edge trimming, compaction), the
    modifier containers, the type-erased dense views of [uref.hpp], and the
    parts of [Lattice] and [System] that the unit tests exercise.

    Conventions.
    - Eigen arrays are lists, indexed by [nat]; [a[i]] is a lookup, and
      [a[i] = v] is stdpp's list insert.  The sources index unchecked; here
      an out-of-range read yields the stated default and an out-of-range
      write is dropped.
    - [int] values are integers in [Z].  Signed overflow of [int] is
      undefined in C++, so [int] arithmetic is written on [Z] directly
      where the values are lattice coordinates and counts; conversions to
      a narrower type ([static_cast<int16_t>], [sub_id]) are written out
      as reductions to the two's-complement range.  The constructors
      compute sizes as products and differences, which leave the range of
      [int] for ordinary large inputs: there the reduction to 32 bits that
      the compiled code performs is written out as well.
    - [float] values are kept as data ([spec_float]); no claim below depends
      on rounding.
    - Recursion that the sources do not bound syntactically
      ([clear_neighbors], the loops of [make_sublattice_ids]) takes fuel and
      returns [option]; the theorems show that the fuel supplied suffices. *)

From Stdlib Require Import ZArith List Bool Lia String.
From Stdlib Require Import Floats.SpecFloat.
From stdpp Require Import base option list gmap.

(** ** Fixed-width integers *)

Module Int.

(** Reduction of an integer to the signed range of [bits] bits. *)
Definition wrap (bits z : Z) : Z :=
  ((z + 2 ^ (bits - 1)) mod 2 ^ bits - 2 ^ (bits - 1))%Z.

Definition int8_t : Z -> Z := wrap 8.
Definition int16_t : Z -> Z := wrap 16.

Definition int_max : Z := (2 ^ 31 - 1)%Z.
Definition int_min : Z := (- 2 ^ 31)%Z.
Definition int16_max : Z := (2 ^ 15 - 1)%Z.
Definition int8_max : Z := (2 ^ 7 - 1)%Z.

End Int.

(** ** Calls that may throw *)

(** The result of a call: a value, or a thrown exception with its
    message. *)
Inductive outcome (A : Type) : Type :=
| Returns (a : A)
| Throws (what : string).
Arguments Returns {A} a.
Arguments Throws {A} what.

Definition bind {A B : Type} (x : outcome A) (k : A -> outcome B) : outcome B :=
  match x with
  | Returns a => k a
  | Throws w => Throws w
  end.

(** ** Eigen vectors of three components *)

(** [Index3D] is [Eigen::Vector3i]. *)
Record Index3D := Index3 { i0 : Z; i1 : Z; i2 : Z }.

Module Idx.

Definition Zero : Index3D := Index3 0 0 0.
Definition Ones : Index3D := Index3 1 1 1.
Definition Constant (c : Z) : Index3D := Index3 c c c.

Definition add (a b : Index3D) : Index3D :=
  Index3 (i0 a + i0 b) (i1 a + i1 b) (i2 a + i2 b).

Definition sub (a b : Index3D) : Index3D :=
  Index3 (i0 a - i0 b) (i1 a - i1 b) (i2 a - i2 b).

Definition neg (a : Index3D) : Index3D :=
  Index3 (- i0 a) (- i1 a) (- i2 a).

Definition eqb (a b : Index3D) : bool :=
  (i0 a =? i0 b)%Z && (i1 a =? i1 b)%Z && (i2 a =? i2 b)%Z.

(** [any_of(index < 0)] *)
Definition any_lt0 (a : Index3D) : bool :=
  (i0 a <? 0)%Z || (i1 a <? 0)%Z || (i2 a <? 0)%Z.

(** [any_of(index >= size.array())] *)
Definition any_ge (a s : Index3D) : bool :=
  (i0 a >=? i0 s)%Z || (i1 a >=? i1 s)%Z || (i2 a >=? i2 s)%Z.

(** Component [k] of a vector; components past the third read as 0. *)
Definition get (a : Index3D) (k : nat) : Z :=
  match k with 0 => i0 a | 1 => i1 a | 2 => i2 a | _ => 0%Z end.

(** [v.head(ndim) = f(v.head(ndim))]: [f] applied, with the component
    number, to the first [ndim] components. *)
Definition map_head (ndim : nat) (f : nat -> Z -> Z) (a : Index3D) : Index3D :=
  Index3 (if 0 <? ndim then f 0 (i0 a) else i0 a)
         (if 1 <? ndim then f 1 (i1 a) else i1 a)
         (if 2 <? ndim then f 2 (i2 a) else i2 a).

(** [(a < b).select(a, b)] and [(a > b).select(a, b)], componentwise. *)
Definition select_lt (a b : Index3D) : Index3D :=
  Index3 (if (i0 a <? i0 b)%Z then i0 a else i0 b)
         (if (i1 a <? i1 b)%Z then i1 a else i1 b)
         (if (i2 a <? i2 b)%Z then i2 a else i2 b).

Definition select_gt (a b : Index3D) : Index3D :=
  Index3 (if (i0 a >? i0 b)%Z then i0 a else i0 b)
         (if (i1 a >? i1 b)%Z then i1 a else i1 b)
         (if (i2 a >? i2 b)%Z then i2 a else i2 b).


End Idx.

(** [Cartesian] is [Eigen::Vector3f]; [float] is IEEE binary32 data. *)
Definition float := spec_float.
Record Cartesian := Cart { cx : float; cy : float; cz : float }.
Record complex := Complex { re : float; im : float }.

(** ** Lattice data *)

Module Lattice.

Record Hopping := mkHopping {
  relative_index : Index3D;  (* relative unit-cell offset *)
  to_sublattice : Z;         (* sub_id of the destination *)
  id : Z;                    (* hop_id of the registered energy *)
  is_conjugate : bool
}.

Record Sublattice := mkSublattice {
  offset : Cartesian;
  hoppings : list Hopping
}.

Record t := mk {
  vectors : list Cartesian;
  sublattices : list Sublattice;
  hopping_energies : list complex;
  min_neighbours : Z
}.

Definition empty_sublattice : Sublattice :=
  mkSublattice (Cart (S754_zero false) (S754_zero false) (S754_zero false)) [].

(** [lattice[sub]]: the sublattice with id [sub]. *)
Definition get (L : t) (sub : Z) : Sublattice :=
  if (sub <? 0)%Z then empty_sublattice
  else default empty_sublattice (sublattices L !! Z.to_nat sub).

(** Modelled from the spec: [Sublattice::add_hopping],
    [Lattice::add_registered_hopping] and [Lattice::max_hoppings] are
    defined in Lattice.cpp, which is not among the sources; the unit tests
    "Sublattice" and "Lattice/Add hoppings" call them.  A sublattice
    refuses a hopping whose offset and destination it already lists (the
    test "Sublattice" requires the second call to throw). *)
Definition same_hopping (rel : Index3D) (to_sub : Z) (h : Hopping) : bool :=
  Idx.eqb (relative_index h) rel && (to_sublattice h =? to_sub)%Z.

Definition Sublattice_add_hopping (s : Sublattice) (rel : Index3D)
    (to_sub hop_id : Z) (is_conj : bool) : outcome Sublattice :=
  if existsb (same_hopping rel to_sub) (hoppings s)
  then Throws "The specified hopping already exists."
  else Returns (mkSublattice (offset s)
                  (hoppings s ++ [mkHopping rel to_sub hop_id is_conj])).

Definition sub_in_range (L : t) (sub : Z) : bool :=
  (0 <=? sub)%Z && (sub <? Z.of_nat (length (sublattices L)))%Z.

Definition hop_in_range (L : t) (hop_id : Z) : bool :=
  (0 <=? hop_id)%Z && (hop_id <? Z.of_nat (length (hopping_energies L)))%Z.

Definition set_sublattice (L : t) (sub : Z) (s : Sublattice) : t :=
  mk (vectors L) (<[Z.to_nat sub := s]> (sublattices L))
     (hopping_energies L) (min_neighbours L).

(** Modelled from the spec: the three checks, then the forward record on
    sublattice [from_sub], then the mirrored record on sublattice [to_sub],
    the mirror being added "only if the two sublattices or offsets
    differ". *)
Definition add_registered_hopping (L : t) (rel : Index3D)
    (from_sub to_sub hop_id : Z) : outcome t :=
  if negb (sub_in_range L from_sub) || negb (sub_in_range L to_sub)
  then Throws "The specified sublattice does not exist."
  else if negb (hop_in_range L hop_id)
  then Throws "The specified hopping does not exist."
  else if (from_sub =? to_sub)%Z && Idx.eqb rel Idx.Zero
  then Throws "Hoppings from/to the same sublattice must have a non-zero relative index."
  else
    bind (Sublattice_add_hopping (get L from_sub) rel to_sub hop_id false)
      (fun s =>
         let L := set_sublattice L from_sub s in
         if negb (from_sub =? to_sub)%Z || negb (Idx.eqb rel (Idx.neg rel))
         then
           bind (Sublattice_add_hopping (get L to_sub) (Idx.neg rel) from_sub
                   hop_id true)
             (fun s => Returns (set_sublattice L to_sub s))
         else Returns L).

(** [max_hoppings()]: the longest hopping list of any sublattice. *)
Definition max_hoppings (L : t) : nat :=
  fold_left (fun acc s => Nat.max acc (length (hoppings s))) (sublattices L) 0.

End Lattice.

(** ** Shape (the caller's region) *)

Record Shape := mkShape {
  vertices : list Cartesian;
  shape_offset : Cartesian;
  contains : list Cartesian -> list bool
}.

(** ** Foundation *)

Module Foundation.

(** The members of [Foundation] that the functions below read or write.
    [positions] is left out: none of them touches it. *)
Record t := mk {
  lattice : Lattice.t;
  size : Index3D;                  (* unit cells per lattice direction *)
  size_n : Z;                      (* sublattices per unit cell *)
  num_sites : nat;                 (* size.prod() * size_n *)
  is_valid : list bool;
  neighbour_count : list Z;        (* int16_t entries *)
  hamiltonian_indices : list Z     (* int32_t entries *)
}.

Definition with_is_valid (F : t) (v : list bool) : t :=
  mk (lattice F) (size F) (size_n F) (num_sites F) v
     (neighbour_count F) (hamiltonian_indices F).

Definition with_neighbour_count (F : t) (c : list Z) : t :=
  mk (lattice F) (size F) (size_n F) (num_sites F) (is_valid F)
     c (hamiltonian_indices F).

Definition with_hamiltonian_indices (F : t) (h : list Z) : t :=
  mk (lattice F) (size F) (size_n F) (num_sites F) (is_valid F)
     (neighbour_count F) h.

(** Modelled from the spec: [Site] is declared in Foundation.hpp, which is
    not among the sources.  A site is a cursor over the flat arrays: a
    unit-cell index, a sublattice id and the flat index
    [idx = flatten(unit-cell index, sublattice id)], the sublattice id
    varying fastest (as [make_sublattice_ids] below shows) and the first
    lattice direction slowest. *)
Record Site := mkSite {
  index : Index3D;
  sublattice : Z;
  idx : nat
}.

(** The cursor built from a unit-cell index and a sublattice id. *)
Definition make_site (F : t) (i : Index3D) (sub : Z) : Site :=
  mkSite i sub
    (Z.to_nat ((((i0 i * i1 (size F) + i1 i) * i2 (size F) + i2 i) * size_n F
                + sub)%Z)).

(** The cursor the range-for loop [for (auto& site : *this)] holds at its
    [k]-th step. *)
Definition site_at (F : t) (k : nat) : Site :=
  let cell := (Z.of_nat k / size_n F)%Z in
  mkSite (Index3 (cell / (i1 (size F) * i2 (size F)))
                 ((cell / i2 (size F)) mod i1 (size F))
                 (cell mod i2 (size F)))
         (Z.of_nat k mod size_n F)%Z
         k.

(** The sites the loop visits: [begin()] is index 0, [end()] is
    [num_sites]. *)
Definition sites (F : t) : list Site := map (site_at F) (seq 0 (num_sites F)).

(** [site.is_valid()], [site.set_valid(b)], [site.get_neighbor_count()] and
    [site.set_neighbor_count(n)], the last one storing an [int16_t]. *)
Definition site_is_valid (F : t) (s : Site) : bool :=
  default false (is_valid F !! idx s).

Definition set_valid (F : t) (s : Site) (b : bool) : t :=
  with_is_valid F (<[idx s := b]> (is_valid F)).

Definition get_neighbor_count (F : t) (s : Site) : Z :=
  default 0%Z (neighbour_count F !! idx s).

Definition set_neighbor_count (F : t) (s : Site) (n : Z) : t :=
  with_neighbour_count F (<[idx s := Int.int16_t n]> (neighbour_count F)).

(** [any_of(index < 0) || any_of(index >= size.array())] *)
Definition out_of_bounds (F : t) (i : Index3D) : bool :=
  Idx.any_lt0 i || Idx.any_ge i (size F).

(** *** [Foundation::init_neighbor_count] *)

(** The body of the loop over sites: the hopping count of the site's
    sublattice as an [int16_t], less one for each hopping that leaves the
    block. *)
Definition count_neighbors (F : t) (site : Site) : Z :=
  let sublattice := Lattice.get (lattice F) (sublattice site) in
  fold_left
    (fun num_neighbors hopping =>
       if out_of_bounds F (Idx.add (index site) (Lattice.relative_index hopping))
       then Int.int16_t (num_neighbors - 1)
       else num_neighbors)
    (Lattice.hoppings sublattice)
    (Int.int16_t (Z.of_nat (length (Lattice.hoppings sublattice)))).

(** [resize] leaves the entries indeterminate; they are written as 0 here,
    and the loop overwrites every one of them. *)
Definition init_neighbor_count (F : t) : t :=
  with_neighbour_count F
    (fold_left
       (fun counts site => <[idx site := count_neighbors F site]> counts)
       (sites F)
       (replicate (num_sites F) 0%Z)).

(** The terms in which the initial count is stated: the hopping list of
    the site's sublattice, and those of its hoppings whose target unit cell
    (site index plus relative index) lies outside [[0, size)] in some
    dimension. *)
Definition site_hoppings (F : t) (site : Site) : list Lattice.Hopping :=
  Lattice.hoppings (Lattice.get (lattice F) (sublattice site)).

Definition leaves_block (F : t) (site : Site) (h : Lattice.Hopping) : bool :=
  let target := Idx.add (index site) (Lattice.relative_index h) in
  (i0 target <? 0)%Z || (i0 target >=? i0 (size F))%Z
  || (i1 target <? 0)%Z || (i1 target >=? i1 (size F))%Z
  || (i2 target <? 0)%Z || (i2 target >=? i2 (size F))%Z.

Definition edge_hoppings (F : t) (site : Site) : list Lattice.Hopping :=
  List.filter (leaves_block F site) (site_hoppings F site).

(** *** [Foundation::clear_neighbors] and [Foundation::trim_edges] *)

(** Modelled from the spec: [Site::for_each_neighbour] is defined in
    Foundation.hpp, which is not among the sources.  It walks the hopping
    list of the site's sublattice and calls back with the neighbouring site
    of every hopping whose target unit cell lies inside the block.  The
    list below holds the sites passed to the callback, in call order. *)
Definition for_each_neighbour (F : t) (site : Site) : list Site :=
  omap
    (fun hopping =>
       let neighbor_index := Idx.add (index site) (Lattice.relative_index hopping) in
       if out_of_bounds F neighbor_index then None
       else Some (make_site F neighbor_index (Lattice.to_sublattice hopping)))
    (Lattice.hoppings (Lattice.get (lattice F) (sublattice site))).

Section Trimming.

(** The sites that [site.for_each_neighbour] passes to its callback, in
    call order.  [Site::for_each_neighbour] is defined in Foundation.hpp,
    which is not among the sources, so the walk is a parameter of the two
    functions; [for_each_neighbour] above is its model from the spec. *)
Variable neighbours : t -> Site -> list Site.

(** The lambda that [clear_neighbors] passes to [for_each_neighbour]; the
    Hopping it also receives is unused.  [recurse] is the recursive call,
    [None] a run that ended for want of fuel. *)
Definition visit_neighbor (recurse : t -> Site -> option t)
    (acc : option t) (neighbor : Site) : option t :=
  match acc with
  | None => None
  | Some F =>
      if negb (site_is_valid F neighbor) then Some F
      else
        let F := set_neighbor_count F neighbor (get_neighbor_count F neighbor - 1) in
        if (get_neighbor_count F neighbor <? Lattice.min_neighbours (lattice F))%Z
        then recurse (set_valid F neighbor false) neighbor
        else Some F
  end.

(** The recursion of [clear_neighbors] is bounded by [fuel]; [None] means
    the fuel ran out. *)
Fixpoint clear_neighbors (fuel : nat) (F : t) (site : Site) : option t :=
  match fuel with
  | O => None
  | S fuel' =>
      if (get_neighbor_count F site =? 0)%Z then Some F
      else
        match
          fold_left (visit_neighbor (clear_neighbors fuel'))
            (neighbours F site) (Some F)
        with
        | None => None
        | Some F => Some (set_neighbor_count F site 0)
        end
  end.

(** The number of sites still valid: each recursive call of
    [clear_neighbors] follows the invalidation of one of them, so one more
    than this number is fuel enough. *)
Definition num_valid (v : list bool) : nat := length (List.filter (fun b => b) v).

(** The body of the loop of [trim_edges], at the site with flat index [k]. *)
Definition trim_site (fuel : nat) (acc : option t) (k : nat) : option t :=
  match acc with
  | None => None
  | Some F =>
      let site := site_at F k in
      if negb (site_is_valid F site) then clear_neighbors fuel F site
      else Some F
  end.

Definition trim_edges (F : t) : option t :=
  fold_left (trim_site (S (num_valid (is_valid F)))) (seq 0 (num_sites F)) (Some F).

End Trimming.

(** An invalid site whose neighbour count has not been cleared yet: the
    sites on which [clear_neighbors] still has work to do. *)
Definition uncleared (F : t) (j : nat) : Prop :=
  default false (is_valid F !! j) = false
  /\ default 0%Z (neighbour_count F !! j) <> 0%Z.

(** The postcondition of a call [clear_neighbors(site)]: the site is
    cleared and no other site changes its status. *)
Definition clears (F : t) (s : Site) (F' : t) : Prop :=
  forall j, uncleared F' j <-> uncleared F j /\ j <> idx s.

(** *** [Foundation::finalize] *)

(** [num_valid_sites] is an [int] that never exceeds [num_sites], itself an
    [int]. *)
Definition finalize (F : t) : t * Z :=
  let '(indices, num_valid_sites) :=
    fold_left
      (fun (st : list Z * Z) (i : nat) =>
         if default false (is_valid F !! i)
         then (<[i := snd st]> (fst st), (snd st + 1)%Z)
         else st)
      (seq 0 (num_sites F))
      (replicate (num_sites F) (-1)%Z, 0%Z) in
  (with_hamiltonian_indices (with_neighbour_count F []) indices,
   num_valid_sites).

(** What the theorems on [finalize] compare its output with: the rank of
    site [i] among the valid sites when it is valid, and -1 otherwise. *)
Definition compact_index (v : list bool) (i : nat) : Z :=
  if default false (v !! i) then Z.of_nat (num_valid (take i v)) else (-1)%Z.

(** *** [Foundation::make_sublattice_ids] *)

(** The inner loop [for (auto id = sub_id{0}; id < max_id; ++id, ++i)].
    Modelled from the spec: [sub_id] is declared in Lattice.hpp, which is
    not among the sources; it is "a small signed integer", taken to be
    [int8_t] here.  An [id] below [max_id] is at most 126, so 128 steps of
    fuel are never used up. *)
Fixpoint sublattice_ids_inner (fuel : nat) (max_id id : Z) (i : nat)
    (ids : list Z) : option (list Z * nat) :=
  if (id <? max_id)%Z then
    match fuel with
    | O => None
    | S fuel' =>
        sublattice_ids_inner fuel' max_id (Int.int8_t (id + 1)) (S i)
          (<[i := id]> ids)
    end
  else Some (ids, i).

(** The outer loop [for (auto i = 0; i < num_sites;)]. *)
Fixpoint sublattice_ids_outer (fuel : nat) (n : nat) (max_id : Z) (i : nat)
    (ids : list Z) : option (list Z) :=
  if i <? n then
    match fuel with
    | O => None
    | S fuel' =>
        match sublattice_ids_inner 128 max_id 0 i ids with
        | None => None
        | Some (ids, i) => sublattice_ids_outer fuel' n max_id i ids
        end
    end
  else Some ids.

Definition make_sublattice_ids (F : t) : option (list Z) :=
  let max_id := Int.int8_t (Z.of_nat (length (Lattice.sublattices (lattice F)))) in
  sublattice_ids_outer (num_sites F) (num_sites F) max_id 0
    (replicate (num_sites F) 0%Z).

(** *** [Foundation::find_bounds] *)

(** [c.head(ndim)] of a Cartesian vector. *)
Definition head (ndim : nat) (c : Cartesian) : list float :=
  take ndim [cx c; cy c; cz c].

(** The [ndim] x [ndim] matrix whose columns are the heads of the
    primitive vectors, as the list of its columns. *)
Definition lattice_matrix (L : Lattice.t) : list (list float) :=
  let ndim := length (Lattice.vectors L) in
  map (head ndim) (Lattice.vectors L).

Section FindBounds.

(** Eigen's [m.colPivHouseholderQr().solve(p).cast<int>()], a call into the
    linear-algebra library: it takes the matrix and the right-hand side and
    yields integer coordinates.  It reports nothing about the rank of [m]. *)
Variable qr_solve_cast : list (list float) -> list float -> list Z.

(** The lattice coordinates [v] of one vertex: [v.head(ndim)] is the
    solution, the other components stay 0. *)
Definition lattice_coordinates (L : Lattice.t) (point : Cartesian) : Index3D :=
  let ndim := length (Lattice.vectors L) in
  let solution := qr_solve_cast (lattice_matrix L) (head ndim point) in
  Idx.map_head ndim (fun k _ => nth k solution 0%Z) Idx.Zero.

(** The loop over the vertices. *)
Definition vertex_bounds (L : Lattice.t) (shape : Shape) : Index3D * Index3D :=
  fold_left
    (fun (b : Index3D * Index3D) (point : Cartesian) =>
       let v := lattice_coordinates L point in
       (Idx.select_lt v (fst b), Idx.select_gt v (snd b)))
    (vertices shape)
    (Idx.Constant Int.int_max, Idx.Constant Int.int_min).

(** The function has no [throw]: every path ends in the [return]. *)
Definition find_bounds (L : Lattice.t) (shape : Shape) : outcome (Index3D * Index3D) :=
  let ndim := length (Lattice.vectors L) in
  let '(lower_bound, upper_bound) := vertex_bounds L shape in
  Returns (Idx.map_head ndim (fun _ x => x - 1)%Z lower_bound,
           Idx.map_head ndim (fun _ x => x + 1)%Z upper_bound).


End FindBounds.


End Foundation.

(** ** Modifier containers *)

Module Modifiers.

(** A [std::shared_ptr<const T>]: the address it holds and the object
    there.  [operator==] on shared pointers compares the addresses. *)
Record shared_ptr (T : Type) := mk_ptr { address : N; pointee : T }.
Arguments mk_ptr {T} address pointee.
Arguments address {T} s.
Arguments pointee {T} s.

Definition ptr_eqb {T : Type} (a b : shared_ptr T) : bool :=
  (address a =? address b)%N.

(** [std::find(v.begin(), v.end(), m) != v.end()] *)
Definition find {T : Type} (v : list (shared_ptr T)) (m : shared_ptr T) : bool :=
  existsb (fun x => ptr_eqb x m) v.

(** The common body of the four [add_unique] overloads: the vector after
    the call and the value returned. *)
Definition add_unique {T : Type} (v : list (shared_ptr T)) (m : shared_ptr T)
    : list (shared_ptr T) * bool :=
  if negb (find v m) then (v ++ [m], true) else (v, false).

Section Containers.
Variables SiteStateModifier PositionModifier OnsiteModifier HoppingModifier : Type.

Record SystemModifiers := mkSystemModifiers {
  state : list (shared_ptr SiteStateModifier);
  position : list (shared_ptr PositionModifier)
}.

Record HamiltonianModifiers := mkHamiltonianModifiers {
  onsite : list (shared_ptr OnsiteModifier);
  hopping : list (shared_ptr HoppingModifier)
}.

(** [SystemModifiers::add_unique(shared_ptr<const SiteStateModifier>)] *)
Definition add_unique_state (M : SystemModifiers)
    (m : shared_ptr SiteStateModifier) : SystemModifiers * bool :=
  let '(v, r) := add_unique (state M) m in (mkSystemModifiers v (position M), r).

(** [SystemModifiers::add_unique(shared_ptr<const PositionModifier>)] *)
Definition add_unique_position (M : SystemModifiers)
    (m : shared_ptr PositionModifier) : SystemModifiers * bool :=
  let '(v, r) := add_unique (position M) m in (mkSystemModifiers (state M) v, r).

(** [HamiltonianModifiers::add_unique(shared_ptr<const OnsiteModifier>)] *)
Definition add_unique_onsite (M : HamiltonianModifiers)
    (m : shared_ptr OnsiteModifier) : HamiltonianModifiers * bool :=
  let '(v, r) := add_unique (onsite M) m in (mkHamiltonianModifiers v (hopping M), r).

(** [HamiltonianModifiers::add_unique(shared_ptr<const HoppingModifier>)] *)
Definition add_unique_hopping (M : HamiltonianModifiers)
    (m : shared_ptr HoppingModifier) : HamiltonianModifiers * bool :=
  let '(v, r) := add_unique (hopping M) m in (mkHamiltonianModifiers (onsite M) v, r).

Definition clear_system (M : SystemModifiers) : SystemModifiers :=
  mkSystemModifiers [] [].

Definition clear_hamiltonian (M : HamiltonianModifiers) : HamiltonianModifiers :=
  mkHamiltonianModifiers [] [].

End Containers.

Arguments state {_ _} s.
Arguments position {_ _} s.
Arguments onsite {_ _} h.
Arguments hopping {_ _} h.
Arguments add_unique_state {_ _} M m.
Arguments add_unique_position {_ _} M m.
Arguments add_unique_onsite {_ _} M m.
Arguments add_unique_hopping {_ _} M m.

End Modifiers.

(** ** Type-erased dense views (support/uref.hpp) *)

Module URef.

Inductive ScalarType := f | cf | d | cd | i | none.

Definition ScalarType_eqb (a b : ScalarType) : bool :=
  match a, b with
  | f, f | cf, cf | d, d | cd, cd | i, i | none, none => true
  | _, _ => false
  end.

(** The scalar types for which [detail::get_type] is specialised. *)
Inductive scalar_t := float_t | complex_float_t | double_t | complex_double_t | int_t.

Definition get_type (s : scalar_t) : ScalarType :=
  match s with
  | float_t => f
  | complex_float_t => cf
  | double_t => d
  | complex_double_t => cd
  | int_t => i
  end.

Record DenseURef := mkDenseURef {
  type : ScalarType;
  data : N;               (* const void*: the address *)
  is_row_major : bool;
  rows : Z;
  cols : Z
}.

(** The compile-time facts of an Eigen type [Derived] that [uref_cast]
    uses; [None] is [Eigen::Dynamic]. *)
Record Derived := mkDerived {
  Scalar : scalar_t;
  RowsAtCompileTime : option Z;
  ColsAtCompileTime : option Z
}.

Definition IsVectorAtCompileTime (D : Derived) : bool :=
  match RowsAtCompileTime D, ColsAtCompileTime D with
  | Some 1%Z, _ | _, Some 1%Z => true
  | _, _ => false
  end.

(** An [Eigen::Map<const Derived>]: the typed pointer and the run-time
    dimensions. *)
Record Map := mkMap {
  map_scalar : scalar_t;
  map_data : N;
  map_rows : Z;
  map_cols : Z
}.

(** Eigen's two [Map] constructors.  A dimension that [Derived] fixes at
    compile time is not stored: [rows()] and [cols()] report the type's own
    value, and the constructor argument is only asserted to agree with it.
    [Map(ptr, size)] of a vector type gives the length to the dimension
    that is dynamic; [Map(ptr, rows, cols)] gives [rows] and [cols] to the
    dimensions that are dynamic. *)
Definition Map_vector (D : Derived) (ptr : N) (size : Z) : Map :=
  mkMap (Scalar D) ptr
    (default size (RowsAtCompileTime D))
    (default size (ColsAtCompileTime D)).

Definition Map_matrix (D : Derived) (ptr : N) (r c : Z) : Map :=
  mkMap (Scalar D) ptr
    (default r (RowsAtCompileTime D))
    (default c (ColsAtCompileTime D)).

(** [detail::make_map<Derived>::exec] *)
Definition make_map (D : Derived) (u : DenseURef) : Map :=
  if IsVectorAtCompileTime D
  then Map_vector D (data u) (if is_row_major u then cols u else rows u)
  else Map_matrix D (data u) (rows u) (cols u).

Definition uref_cast (D : Derived) (u : DenseURef) : outcome Map :=
  if negb (ScalarType_eqb (type u) (get_type (Scalar D)))
  then Throws "eigen_cast(DenseURef) - wrong scalar type selected"
  else Returns (make_map D u).

(** [ArrayXf]: a column of floats of dynamic length. *)
Definition ArrayXf : Derived := mkDerived float_t None (Some 1%Z).
(** [ArrayXXf]: a matrix of floats, both dimensions dynamic. *)
Definition ArrayXXf : Derived := mkDerived float_t None None.
(** [Vector3f]: a column of three floats. *)
Definition Vector3f : Derived := mkDerived float_t (Some 3%Z) (Some 1%Z).
(** [Matrix2f]: a matrix of two rows and two columns of floats. *)
Definition Matrix2f : Derived := mkDerived float_t (Some 2%Z) (Some 2%Z).

End URef.

(** ** Exact values of floats, for stating that a lattice matrix is singular *)

Module Exact.








End Exact.

(** ** The hopping matrix of a System *)

Module System.

(** [SparseMatrixX<hop_id>]: the stored entries, keyed by (row, column). *)
Record SparseMatrix := mkSparse {
  rows : Z;
  cols : Z;
  entries : gmap (Z * Z) Z
}.

Definition empty (r c : Z) : SparseMatrix := mkSparse r c ∅.


Definition nonZeros (m : SparseMatrix) : nat := size (entries m).

(** [sm.coeff(r, c)]: the stored value, 0 where nothing is stored. *)
Definition coeff (m : SparseMatrix) (r c : Z) : Z :=
  default 0%Z (entries m !! (r, c)).

Definition stored (m : SparseMatrix) (r c : Z) : bool :=
  bool_decide (is_Some (entries m !! (r, c))).

(** [HoppingGenerator::Result] *)
Record Result := mkResult { from : list Z; to : list Z }.

(** Modelled from the spec: the code that merges the edges of a hopping
    generator into [System::hoppings] is in System.cpp, which is not among
    the sources.  Each edge goes to the upper-triangular position (the
    smaller index is the row); an edge whose position is already stored
    leaves the stored entry as it is (first writer wins). *)
Definition upper (e : Z * Z) : Z * Z :=
  if (fst e <=? snd e)%Z then e else (snd e, fst e).

Definition add_edge (hop_id : Z) (m : SparseMatrix) (e : Z * Z) : SparseMatrix :=
  match entries m !! upper e with
  | Some _ => m
  | None => mkSparse (rows m) (cols m) (<[upper e := hop_id]> (entries m))
  end.

Definition add_hopping_family (hop_id : Z) (r : Result) (m : SparseMatrix)
    : SparseMatrix :=
  fold_left (add_edge hop_id) (zip (from r) (to r)) m.

(** The results of the generators of the unit test "HoppingGenerator":
    the edge from site 0 to site 1, and that edge with its reverse. *)
Definition one_edge : Result := mkResult [0]%Z [1]%Z.
Definition edge_and_reverse : Result := mkResult [0; 1]%Z [1; 0]%Z.

(** *** [nonzeros_per_row] *)






End System.

(** ** Concrete inputs *)

Module Fixtures.

Definition zero : float := S754_zero false.
Definition one : float := S754_finite false 8388608 (-23).
Definition two : float := S754_finite false 8388608 (-22).
Definition origin : Cartesian := Cart zero zero zero.

(** A chain: one sublattice, hoppings to the cells on the right and on the
    left, and the given trimming threshold. *)
Definition chain_lattice (min_neighbours : Z) : Lattice.t :=
  Lattice.mk [Cart one zero zero]
    [Lattice.mkSublattice origin
       [Lattice.mkHopping (Index3 1 0 0) 0 0 false;
        Lattice.mkHopping (Index3 (-1) 0 0) 0 0 true]]
    [Complex one zero]
    min_neighbours.

(** The chain Foundation with the given validity array, its neighbour
    counts initialised. *)
Definition chain (min_neighbours : Z) (valid : list bool) : Foundation.t :=
  Foundation.init_neighbor_count
    (Foundation.mk (chain_lattice min_neighbours)
       (Index3 (Z.of_nat (length valid)) 1 1) 1 (length valid) valid [] []).

(** One sublattice with [n] hoppings, to the cells 1, 2, ..., [n] to the
    right, in a block of [n + 1] cells: from the first cell every hopping
    stays inside the block. *)
Definition long_range_hoppings (n : nat) : list Lattice.Hopping :=
  map (fun k => Lattice.mkHopping (Index3 (Z.of_nat k) 0 0) 0 0 false) (seq 1 n).

Definition long_range_lattice (n : nat) : Lattice.t :=
  Lattice.mk [Cart one zero zero]
    [Lattice.mkSublattice origin (long_range_hoppings n)]
    [Complex one zero]
    1.

Definition long_range (n : nat) : Foundation.t :=
  Foundation.mk (long_range_lattice n) (Index3 (Z.of_nat n + 1) 1 1) 1 (S n)
    (replicate (S n) true) [] [].

(** Two sublattices in a block of two by one by three cells. *)
Definition two_sublattices : Foundation.t :=
  Foundation.mk
    (Lattice.mk [Cart one zero zero; Cart zero one zero]
       [Lattice.mkSublattice origin []; Lattice.mkSublattice origin []]
       [] 1)
    (Index3 2 1 3) 2 12 (replicate 12 true) [] [].


(** A float matrix of three rows and four columns seen through a
    [DenseURef], at some address. *)
Definition matrix_view : URef.DenseURef :=
  URef.mkDenseURef URef.f 4096 false 3 4.

(** The lattice of the unit test "Lattice/Add hoppings": sublattices A (0)
    and B (1) and one registered hopping energy t1 (0). *)
Definition test_lattice : Lattice.t :=
  Lattice.mk [Cart one zero zero; Cart zero one zero]
    [Lattice.mkSublattice origin []; Lattice.mkSublattice origin []]
    [Complex one zero] 1.

End Fixtures.

(** ** Construction of a Foundation *)

Module Construction.
Import Foundation.

(** What a [Foundation] constructor leaves behind: the members of
    [Foundation.t] and the [positions] array. *)
Record Built := mkBuilt {
  foundation : Foundation.t;
  positions : list Cartesian
}.

(** [Primitive]: only its [size] is read. *)
Record Primitive := mkPrimitive { primitive_size : Index3D }.

(** An [int] result in the constructors: reduced to 32 bits. *)
Definition int32 (z : Z) : Z := Int.wrap 32 z.

(** [size.prod()] *)
Definition prod (s : Index3D) : Z := int32 (int32 (i0 s * i1 s) * i2 s).

(** [size.prod() * size_n], the value assigned to [num_sites]. *)
Definition site_count (size : Index3D) (size_n : Z) : Z :=
  int32 (prod size * size_n).

(** [(bounds.second - bounds.first) + Index3D::Ones()] *)
Definition shape_size (bounds : Index3D * Index3D) : Index3D :=
  let '(lower, upper) := bounds in
  Index3 (int32 (int32 (i0 upper - i0 lower) + 1))
         (int32 (int32 (i1 upper - i1 lower) + 1))
         (int32 (int32 (i2 upper - i2 lower) + 1)).

(** [positions.resize(num_sites)] is the first use of [num_sites].  Eigen
    cannot size an array negatively: the call does not return (it ends in
    a failed assertion, or in [std::bad_alloc] where assertions are off),
    and neither does the constructor. *)
Definition bad_alloc : string := "std::bad_alloc".

(** [static_cast<int>(lattice.sublattices.size())] *)
Definition sublattice_count (L : Lattice.t) : Z :=
  Int.wrap 32 (Z.of_nat (length (Lattice.sublattices L))).

Definition Cartesian_Zero : Cartesian :=
  Cart (S754_zero false) (S754_zero false) (S754_zero false).

Section Positions.

(** Single-precision arithmetic is a parameter: the sum, product and
    quotient of two floats, the negation of one, and
    [static_cast<float>] of an [int]. *)
Variables (fadd fmul fdiv : float -> float -> float).
Variable fneg : float -> float.
Variable of_int : Z -> float.

(** [a + c * v], [-a] and [a / c] on Cartesian vectors, componentwise. *)
Definition add_scaled (a : Cartesian) (c : float) (v : Cartesian) : Cartesian :=
  Cart (fadd (cx a) (fmul c (cx v)))
       (fadd (cy a) (fmul c (cy v)))
       (fadd (cz a) (fmul c (cz v))).

Definition cart_add (a b : Cartesian) : Cartesian :=
  Cart (fadd (cx a) (cx b)) (fadd (cy a) (cy b)) (fadd (cz a) (cz b)).

Definition cart_neg (a : Cartesian) : Cartesian :=
  Cart (fneg (cx a)) (fneg (cy a)) (fneg (cz a)).

Definition cart_div (a : Cartesian) (c : float) : Cartesian :=
  Cart (fdiv (cx a) c) (fdiv (cy a) c) (fdiv (cz a) c).

(** The loops [for (i = 0; i < lattice.vectors.size(); ++i)
    acc += static_cast<float>(coefficient[i]) * lattice.vectors[i]]. *)
Definition add_lattice_vectors (L : Lattice.t) (coefficient : nat -> Z)
    (start : Cartesian) : Cartesian :=
  fold_left
    (fun acc i =>
       add_scaled acc (of_int (coefficient i))
         (default Cartesian_Zero (Lattice.vectors L !! i)))
    (seq 0 (length (Lattice.vectors L)))
    start.

(** [Foundation::calculate_position] *)
Definition calculate_position (F : Foundation.t) (site : Site)
    (origin : Cartesian) : Cartesian :=
  let position := add_lattice_vectors (lattice F) (Idx.get (index site)) origin in
  cart_add position (Lattice.offset (Lattice.get (lattice F) (sublattice site))).

(** [Foundation::init_positions]: [resize] leaves the entries
    indeterminate (written as zero vectors here), the loop then writes
    [positions[site.idx]] for every site. *)
Definition init_positions (F : Foundation.t) (origin : Cartesian) : list Cartesian :=
  fold_left
    (fun positions site => <[idx site := calculate_position F site origin]> positions)
    (sites F)
    (replicate (num_sites F) Cartesian_Zero).

(** [Foundation::Foundation(Lattice const&, Primitive const&)] *)
Definition from_primitive (L : Lattice.t) (primitive : Primitive) : outcome Built :=
  let size := primitive_size primitive in
  let size_n := sublattice_count L in
  let origin :=
    let width :=
      add_lattice_vectors L (fun i => int32 (Idx.get size i - 1)) Cartesian_Zero in
    cart_div (cart_neg width) (of_int 2) in
  let num_sites := site_count size size_n in
  if (num_sites <? 0)%Z then Throws bad_alloc
  else
    let num_sites := Z.to_nat num_sites in
    let F := Foundation.mk L size size_n num_sites [] [] [] in
    let positions := init_positions F origin in
    let F := with_is_valid F (replicate num_sites true) in
    Returns (mkBuilt (init_neighbor_count F) positions).

Section FromShape.

(** The two calls into code outside the sources, as in [trim_edges] and
    [find_bounds]. *)
Variable neighbours : Foundation.t -> Site -> list Site.
Variable qr_solve_cast : list (list float) -> list float -> list Z.

(** [Foundation::Foundation(Lattice const&, Shape const&)].  The outer
    result is the exception channel, the inner one the fuel of
    [trim_edges]. *)
Definition from_shape (L : Lattice.t) (shape : Shape) : outcome (option Built) :=
  bind (find_bounds qr_solve_cast L shape)
    (fun bounds =>
       let size := shape_size bounds in
       let size_n := sublattice_count L in
       let origin :=
         add_lattice_vectors L (Idx.get (fst bounds)) (shape_offset shape) in
       let num_sites := site_count size size_n in
       if (num_sites <? 0)%Z then Throws bad_alloc
       else
         let num_sites := Z.to_nat num_sites in
         let F := Foundation.mk L size size_n num_sites [] [] [] in
         let positions := init_positions F origin in
         let F := with_is_valid F (contains shape positions) in
         let F := init_neighbor_count F in
         Returns
           (match trim_edges neighbours F with
            | Some F => Some (mkBuilt F positions)
            | None => None
            end)).

End FromShape.

End Positions.

(** What one pass of trimming may do to a Foundation: it keeps the
    lattice, the sizes and the lengths of the arrays, it never makes an
    invalid site valid, and a site that stays valid keeps its neighbour
    count or keeps a count of at least [min_neighbours]. *)
Definition erodes (F F' : Foundation.t) : Prop :=
  lattice F' = lattice F
  /\ size F' = size F
  /\ size_n F' = size_n F
  /\ num_sites F' = num_sites F
  /\ hamiltonian_indices F' = hamiltonian_indices F
  /\ length (is_valid F') = length (is_valid F)
  /\ length (neighbour_count F') = length (neighbour_count F)
  /\ forall j,
       default false (is_valid F' !! j) = true ->
       default false (is_valid F !! j) = true
       /\ (default 0%Z (neighbour_count F' !! j)
           = default 0%Z (neighbour_count F !! j)
           \/ (Lattice.min_neighbours (lattice F)
               <= default 0%Z (neighbour_count F' !! j))%Z).

End Construction.

(** ** More of the modifier containers *)

Module ModifierLists.
Import Modifiers.

(** The addresses held by a list of handles, in order. *)
Definition addresses {T : Type} (v : list (shared_ptr T)) : list N :=
  map address v.

(** A run of [add_unique] calls on one list: the list after the calls
    and the values returned, in call order. *)
Definition add_all {T : Type} (v : list (shared_ptr T))
    (ms : list (shared_ptr T)) : list (shared_ptr T) * list bool :=
  fold_left
    (fun (st : list (shared_ptr T) * list bool) m =>
       let '(v', r) := add_unique (fst st) m in (v', snd st ++ [r]))
    ms (v, []).

Section AnyComplex.

(** The virtual [is_complex()] of the two modifier classes. *)
Variables OnsiteModifier HoppingModifier : Type.
Variable onsite_is_complex : OnsiteModifier -> bool.
Variable hopping_is_complex : HoppingModifier -> bool.

(** [HamiltonianModifiers::any_complex] *)
Definition any_complex
    (M : HamiltonianModifiers OnsiteModifier HoppingModifier) : bool :=
  let complex_potential :=
    existsb (fun o => onsite_is_complex (pointee o)) (onsite M) in
  let complex_hoppings :=
    existsb (fun h => hopping_is_complex (pointee h)) (hopping M) in
  complex_potential || complex_hoppings.

End AnyComplex.

End ModifierLists.

(** ** Building a dense view *)

Module URefBuild.
Import URef.

(** An Eigen dense object as the constructor of [DenseURef] sees it: its
    type [Derived] with the storage order [Derived::IsRowMajor], its data
    pointer and its run-time dimensions. *)
Record DenseBase := mkDenseBase {
  derived : Derived;
  IsRowMajor : bool;
  base_data : N;
  base_rows : Z;
  base_cols : Z
}.

(** [DenseURef::DenseURef(const Eigen::DenseBase<Derived>&)] *)
Definition make_DenseURef (v : DenseBase) : DenseURef :=
  mkDenseURef (get_type (Scalar (derived v))) (base_data v) (IsRowMajor v)
    (base_rows v) (base_cols v).

(** What Eigen guarantees of an object of type [Derived]: a dimension
    fixed at compile time is the run-time dimension, and a vector type is
    stored row-major exactly when it is a row (one row, more than one
    column possible). *)
Definition well_typed (v : DenseBase) : Prop :=
  (forall r, RowsAtCompileTime (derived v) = Some r -> base_rows v = r)
  /\ (forall c, ColsAtCompileTime (derived v) = Some c -> base_cols v = c)
  /\ (IsVectorAtCompileTime (derived v) = true ->
      if IsRowMajor v then RowsAtCompileTime (derived v) = Some 1%Z
      else ColsAtCompileTime (derived v) = Some 1%Z).

(** A column of five floats, as an [ArrayXf]. *)
Definition column5 : DenseBase := mkDenseBase ArrayXf false 8192 5 1.

End URefBuild.

(** ** More concrete inputs *)

Module Fixtures2.

(** [cast<int>] of a float: truncation towards zero. *)
Definition truncate (x : float) : Z :=
  match x with
  | S754_finite s m e =>
      let magnitude :=
        if (0 <=? e)%Z then (Z.pos m * 2 ^ e)%Z else (Z.pos m / 2 ^ (- e))%Z in
      if s then (- magnitude)%Z else magnitude
  | _ => 0%Z
  end.

(** The solve for a lattice whose matrix is the identity: the solution is
    the right-hand side. *)
Definition identity_solve (m : list (list float)) (p : list float) : list Z :=
  map truncate p.

Definition three : float := S754_finite false 12582912 (-22).

(** The square lattice with unit vectors along x and y and one sublattice
    without hoppings. *)
Definition square_lattice : Lattice.t :=
  Lattice.mk [Cart Fixtures.one Fixtures.zero Fixtures.zero;
              Cart Fixtures.zero Fixtures.one Fixtures.zero]
    [Lattice.mkSublattice Fixtures.origin []] [] 1.

(** A shape with the corners (0, 0), (3, 0) and (0, 2) that contains every
    position it is asked about. *)
Definition corner_a : Cartesian := Cart Fixtures.zero Fixtures.zero Fixtures.zero.
Definition corner_b : Cartesian := Cart three Fixtures.zero Fixtures.zero.
Definition corner_c : Cartesian := Cart Fixtures.zero Fixtures.two Fixtures.zero.

Definition triangle : Shape :=
  mkShape [corner_a; corner_b; corner_c] Fixtures.origin
    (fun positions => map (fun _ => true) positions).

Definition triangle_reordered : Shape :=
  mkShape [corner_c; corner_a; corner_b] Fixtures.origin
    (fun positions => map (fun _ => true) positions).

(** IEEE binary32 arithmetic (24 bits of precision, exponents below 128),
    and the conversion of an [int] to it. *)
Definition fadd32 : float -> float -> float := SFadd 24 128.
Definition fmul32 : float -> float -> float := SFmul 24 128.
Definition fdiv32 : float -> float -> float := SFdiv 24 128.
Definition fneg32 : float -> float := SFopp.
Definition of_int32 (z : Z) : float := binary_normalize 24 128 z 0 false.

(** A block of two by two unit cells. *)
Definition block_2x2 : Construction.Primitive :=
  Construction.mkPrimitive (Index3 2 2 1).

(** A wide shape: corners at (-2^30, 0), (2^30, 0) and (0, 2). *)
Definition far : float := S754_finite false 8388608 7.
Definition far_left : float := S754_finite true 8388608 7.

Definition wide : Shape :=
  mkShape [Cart far_left Fixtures.zero Fixtures.zero;
           Cart far Fixtures.zero Fixtures.zero;
           corner_c]
    Fixtures.origin
    (fun positions => map (fun _ => true) positions).

End Fixtures2.

(** * Proofs *)

(** ** Counting valid sites *)

Section NumValid.
Import Foundation.

Lemma num_valid_app (u v : list bool) :
  num_valid (u ++ v) = num_valid u + num_valid v.
Proof.
  unfold num_valid. rewrite List.filter_app, length_app. reflexivity.
Qed.

Lemma num_valid_cons (b : bool) (v : list bool) :
  num_valid (b :: v) = (if b then 1 else 0) + num_valid v.
Proof. destruct b; reflexivity. Qed.

Lemma num_valid_le_length (v : list bool) : num_valid v <= length v.
Proof.
  induction v as [|b v IH]; [reflexivity|].
  rewrite num_valid_cons. destruct b; simpl; lia.
Qed.

(** The count over a prefix grows by one exactly at a valid site. *)
Lemma num_valid_take_S (v : list bool) (k : nat) :
  num_valid (take (S k) v)
  = num_valid (take k v) + (if default false (v !! k) then 1 else 0).
Proof.
  destruct (v !! k) as [b|] eqn:E.
  - rewrite (take_S_r _ _ _ E), num_valid_app, num_valid_cons.
    simpl. destruct b; unfold num_valid; simpl; lia.
  - apply lookup_ge_None in E. rewrite !take_ge by lia. simpl. lia.
Qed.

Lemma num_valid_take_mono (v : list bool) (a b : nat) :
  a <= b -> num_valid (take a v) <= num_valid (take b v).
Proof.
  induction 1 as [|b Hab IH]; [reflexivity|].
  rewrite num_valid_take_S. lia.
Qed.

Lemma num_valid_take_le (v : list bool) (k : nat) :
  num_valid (take k v) <= num_valid v.
Proof.
  rewrite <- (take_drop k v) at 2. rewrite num_valid_app. lia.
Qed.

(** A valid site is counted after it, not before it. *)
Lemma num_valid_take_lt (v : list bool) (i : nat) :
  v !! i = Some true -> num_valid (take i v) < num_valid v.
Proof.
  intros E.
  pose proof (num_valid_take_S v i) as HS. rewrite E in HS. simpl in HS.
  pose proof (num_valid_take_le v (S i)). lia.
Qed.

(** Every number below the count is the rank of some valid site. *)
Lemma num_valid_rank (v : list bool) (k : nat) :
  k < num_valid v ->
  exists i, v !! i = Some true /\ num_valid (take i v) = k.
Proof.
  revert k. induction v as [|b v IH]; intros k Hk.
  - unfold num_valid in Hk. simpl in Hk. lia.
  - rewrite num_valid_cons in Hk. destruct b.
    + destruct k as [|k].
      * exists 0. split; reflexivity.
      * destruct (IH k) as (i & Hi & Hr); [simpl in Hk; lia|].
        exists (S i). split; [exact Hi|].
        simpl take. rewrite num_valid_cons. simpl. lia.
    + destruct (IH k) as (i & Hi & Hr); [simpl in Hk; lia|].
      exists (S i). split; [exact Hi|].
      simpl take. rewrite num_valid_cons. simpl. lia.
Qed.

End NumValid.

(** ** [finalize] *)

Section Finalize.
Import Foundation.

(** The state of the loop after [k] of [n] steps. *)
Lemma finalize_loop (v : list bool) (n k : nat) :
  k <= n ->
  fold_left
    (fun (st : list Z * Z) (i : nat) =>
       if default false (v !! i)
       then (<[i := snd st]> (fst st), (snd st + 1)%Z)
       else st)
    (seq 0 k)
    (replicate n (-1)%Z, 0%Z)
  = (map (compact_index v) (seq 0 k) ++ replicate (n - k) (-1)%Z,
     Z.of_nat (num_valid (take k v))).
Proof.
  induction k as [|k IH]; intros Hk.
  - simpl. rewrite Nat.sub_0_r. reflexivity.
  - rewrite seq_S, fold_left_app, IH by lia. simpl fold_left.
    rewrite num_valid_take_S, map_app. simpl map.
    replace (n - k) with (S (n - S k)) by lia.
    assert (Hc : compact_index v k
                 = if default false (v !! k)
                   then Z.of_nat (num_valid (take k v)) else (-1)%Z)
      by reflexivity.
    rewrite Hc. clear Hc.
    destruct (default false (v !! k)); simpl.
    + f_equal; [|lia].
      rewrite insert_app_r_alt by (rewrite length_map, length_seq; lia).
      rewrite length_map, length_seq, Nat.sub_diag. simpl.
      rewrite <- app_assoc. reflexivity.
    + f_equal; [|f_equal; lia].
      rewrite <- app_assoc. reflexivity.
Qed.

Lemma finalize_indices (F : t) :
  hamiltonian_indices (fst (finalize F))
  = map (compact_index (is_valid F)) (seq 0 (num_sites F))
  /\ snd (finalize F) = Z.of_nat (num_valid (take (num_sites F) (is_valid F))).
Proof.
  unfold finalize.
  rewrite (finalize_loop (is_valid F) (num_sites F) (num_sites F)) by lia.
  rewrite Nat.sub_diag, app_nil_r. simpl. split; reflexivity.
Qed.

Lemma finalize_lookup (F : t) (i : nat) :
  i < num_sites F ->
  hamiltonian_indices (fst (finalize F)) !! i = Some (compact_index (is_valid F) i).
Proof.
  intros Hi. rewrite (proj1 (finalize_indices F)).
  change (map (compact_index (is_valid F)) (seq 0 (num_sites F)))
    with (compact_index (is_valid F) <$> seq 0 (num_sites F)).
  rewrite list_lookup_fmap, lookup_seq_lt by exact Hi. reflexivity.
Qed.

Lemma compact_index_valid (v : list bool) (i : nat) :
  v !! i = Some true -> compact_index v i = Z.of_nat (num_valid (take i v)).
Proof. intros E. unfold compact_index. rewrite E. reflexivity. Qed.

Lemma compact_index_invalid (v : list bool) (i : nat) :
  v !! i <> Some true -> compact_index v i = (-1)%Z.
Proof.
  intros E. unfold compact_index.
  destruct (v !! i) as [[|]|]; simpl; congruence.
Qed.

Lemma compact_index_nonneg (v : list bool) (i : nat) :
  (0 <= compact_index v i)%Z <-> v !! i = Some true.
Proof.
  split.
  - intros H. destruct (v !! i) as [[|]|] eqn:E; try reflexivity;
      rewrite compact_index_invalid in H by congruence; lia.
  - intros E. rewrite compact_index_valid by exact E. lia.
Qed.

(** C1: [finalize] returns the number of valid sites; afterwards
    [hamiltonian_indices[i] >= 0] exactly when site [i] is valid, invalid
    sites hold -1, every value of [0 .. count-1] is the index of a valid
    site, every non-negative index is below the count, and the indices
    grow strictly with the raw site index (so the map from valid sites to
    [0 .. count-1] is an order-preserving bijection). *)
Theorem finalize_compacts (F : Foundation.t) :
  length (is_valid F) = num_sites F ->
  snd (finalize F) = Z.of_nat (num_valid (is_valid F))
  /\ length (hamiltonian_indices (fst (finalize F))) = num_sites F
  /\ (forall i b, is_valid F !! i = Some b ->
        exists x, hamiltonian_indices (fst (finalize F)) !! i = Some x
                  /\ ((0 <= x)%Z <-> b = true)
                  /\ (b = false -> x = (-1)%Z))
  /\ (forall k, (0 <= k < snd (finalize F))%Z ->
        exists i, is_valid F !! i = Some true
                  /\ hamiltonian_indices (fst (finalize F)) !! i = Some k)
  /\ (forall i x, hamiltonian_indices (fst (finalize F)) !! i = Some x ->
        (0 <= x)%Z -> (x < snd (finalize F))%Z)
  /\ (forall i j x y, i < j ->
        hamiltonian_indices (fst (finalize F)) !! i = Some x ->
        hamiltonian_indices (fst (finalize F)) !! j = Some y ->
        (0 <= x)%Z -> (0 <= y)%Z -> (x < y)%Z).
Proof.
  intros Hlen.
  destruct (finalize_indices F) as [Hidx Hcount].
  rewrite <- Hlen, take_ge in Hcount by lia.
  assert (Hlook : forall i x,
             hamiltonian_indices (fst (finalize F)) !! i = Some x ->
             i < num_sites F /\ x = compact_index (is_valid F) i).
  { intros i x Hx. assert (Hi : i < num_sites F).
    { apply lookup_lt_Some in Hx.
      rewrite Hidx, length_map, length_seq in Hx. exact Hx. }
    rewrite finalize_lookup in Hx by exact Hi. split; congruence. }
  repeat split.
  - exact Hcount.
  - rewrite Hidx, length_map, length_seq. reflexivity.
  - intros i b Hb. pose proof (lookup_lt_Some _ _ _ Hb) as Hi.
    rewrite Hlen in Hi. exists (compact_index (is_valid F) i).
    split; [apply finalize_lookup; exact Hi|]. split.
    + rewrite compact_index_nonneg, Hb. split; congruence.
    + intros ->. apply compact_index_invalid. congruence.
  - intros k Hk. rewrite Hcount in Hk.
    destruct (num_valid_rank (is_valid F) (Z.to_nat k)) as (i & Hi & Hr); [lia|].
    exists i. split; [exact Hi|].
    pose proof (lookup_lt_Some _ _ _ Hi) as Hlt. rewrite Hlen in Hlt.
    rewrite finalize_lookup, compact_index_valid by assumption.
    f_equal. lia.
  - intros i x Hx Hnn. destruct (Hlook i x Hx) as [Hi ->].
    apply compact_index_nonneg in Hnn.
    rewrite compact_index_valid, Hcount by exact Hnn.
    pose proof (num_valid_take_lt _ _ Hnn). lia.
  - intros i j x y Hij Hx Hy Hnx Hny.
    destruct (Hlook i x Hx) as [Hi ->]. destruct (Hlook j y Hy) as [Hj ->].
    apply compact_index_nonneg in Hnx, Hny.
    rewrite !compact_index_valid by assumption.
    pose proof (num_valid_take_S (is_valid F) i) as HS.
    rewrite Hnx in HS. simpl in HS.
    pose proof (num_valid_take_mono (is_valid F) (S i) j ltac:(lia)). lia.
Qed.

(** The chain with sites 1 and 3 invalid: three valid sites, indexed 0, 1
    and 2 in site order. *)
Lemma finalize_compacts_witness :
  length (is_valid (Fixtures.chain 1 [true; false; true; false; true]))
  = num_sites (Fixtures.chain 1 [true; false; true; false; true])
  /\ snd (finalize (Fixtures.chain 1 [true; false; true; false; true])) = 3%Z
  /\ hamiltonian_indices
       (fst (finalize (Fixtures.chain 1 [true; false; true; false; true])))
     = [0; -1; 1; -1; 2]%Z.
Proof.
  split; [reflexivity|].
  split; [|reflexivity].
  exact (proj1 (finalize_compacts
                  (Fixtures.chain 1 [true; false; true; false; true])
                  eq_refl)).
Defined.

End Finalize.

(** ** [clear_neighbors] and [trim_edges] *)

Section TrimmingFacts.
Import Foundation.

Variable neighbours : Foundation.t -> Site -> list Site.

(** *** The accessors *)

Lemma valid_set_count (F : t) (s : Site) (n : Z) :
  is_valid (set_neighbor_count F s n) = is_valid F.
Proof. reflexivity. Qed.

Lemma count_set_valid (F : t) (s : Site) (b : bool) :
  neighbour_count (set_valid F s b) = neighbour_count F.
Proof. reflexivity. Qed.

Lemma lookup_set_valid_ne (F : t) (s : Site) (b : bool) (j : nat) :
  j <> idx s -> is_valid (set_valid F s b) !! j = is_valid F !! j.
Proof. intros H. simpl. apply list_lookup_insert_ne. congruence. Qed.

Lemma lookup_set_count_ne (F : t) (s : Site) (n : Z) (j : nat) :
  j <> idx s ->
  neighbour_count (set_neighbor_count F s n) !! j = neighbour_count F !! j.
Proof. intros H. simpl. apply list_lookup_insert_ne. congruence. Qed.

Lemma count_cleared (F : t) (s : Site) :
  default 0%Z (neighbour_count (set_neighbor_count F s 0) !! idx s) = 0%Z.
Proof.
  simpl. destruct (decide (idx s < length (neighbour_count F))) as [Hlt|Hge].
  - rewrite list_lookup_insert_eq by exact Hlt. reflexivity.
  - rewrite list_insert_ge by lia.
    rewrite (proj2 (lookup_ge_None _ _)) by lia. reflexivity.
Qed.

(** *** Which sites are left uncleared *)

Lemma uncleared_set_count_valid (F : t) (s : Site) (n : Z) (j : nat) :
  site_is_valid F s = true ->
  uncleared (set_neighbor_count F s n) j <-> uncleared F j.
Proof.
  intros Hv. unfold uncleared, site_is_valid in *. rewrite valid_set_count.
  destruct (decide (j = idx s)) as [->|Hne].
  - rewrite Hv. split; intros [? _]; discriminate.
  - rewrite lookup_set_count_ne by exact Hne. reflexivity.
Qed.

Lemma uncleared_set_valid_ne (F : t) (s : Site) (b : bool) (j : nat) :
  j <> idx s -> uncleared (set_valid F s b) j <-> uncleared F j.
Proof.
  intros Hne. unfold uncleared.
  rewrite count_set_valid, lookup_set_valid_ne by exact Hne. reflexivity.
Qed.

Lemma uncleared_set_count_zero (F : t) (s : Site) (j : nat) :
  uncleared (set_neighbor_count F s 0) j <-> uncleared F j /\ j <> idx s.
Proof.
  unfold uncleared. destruct (decide (j = idx s)) as [->|Hne].
  - rewrite count_cleared. split; [intros [_ H]|intros [_ H]]; congruence.
  - rewrite valid_set_count, lookup_set_count_ne by exact Hne. tauto.
Qed.

(** A loop that has run out of fuel stays so. *)
Lemma visit_neighbor_None (recurse : t -> Site -> option t) (l : list Site) :
  fold_left (visit_neighbor recurse) l None = None.
Proof. induction l as [|x l IH]; [reflexivity|exact IH]. Qed.

(** The three ways one callback can end. *)
Lemma visit_neighbor_Some (recurse : t -> Site -> option t) (F F2 : t) (n : Site) :
  visit_neighbor recurse (Some F) n = Some F2 ->
  (site_is_valid F n = false /\ F2 = F)
  \/ (site_is_valid F n = true /\
      let F1 := set_neighbor_count F n (get_neighbor_count F n - 1) in
      F2 = F1 \/ recurse (set_valid F1 n false) n = Some F2).
Proof.
  unfold visit_neighbor. destruct (site_is_valid F n); simpl.
  - intros H. right. split; [reflexivity|].
    destruct (_ <? _)%Z; [right; exact H|left; congruence].
  - intros H. left. split; congruence.
Qed.

(** One callback of the neighbour loop leaves the uncleared sites as they
    are, once the recursive call is known to clear its site. *)
Lemma visit_neighbor_uncleared (recurse : t -> Site -> option t) :
  (forall F s F', recurse F s = Some F' -> clears F s F') ->
  forall (l : list Site) (F F' : t),
    fold_left (visit_neighbor recurse) l (Some F) = Some F' ->
    forall j, uncleared F' j <-> uncleared F j.
Proof.
  intros Hrec l. induction l as [|n l IH]; intros F F' Hfold j.
  - simpl in Hfold. injection Hfold as <-. reflexivity.
  - change (fold_left (visit_neighbor recurse) l
              (visit_neighbor recurse (Some F) n) = Some F') in Hfold.
    destruct (visit_neighbor recurse (Some F) n) as [F2|] eqn:Hstep;
      [|rewrite visit_neighbor_None in Hfold; discriminate].
    rewrite (IH _ _ Hfold j).
    destruct (visit_neighbor_Some _ _ _ _ Hstep) as [[_ ->]|[Hv Hcase]];
      [reflexivity|].
    assert (H1 : forall j, uncleared
                (set_neighbor_count F n (get_neighbor_count F n - 1)) j
              <-> uncleared F j)
      by (intros j'; apply uncleared_set_count_valid; exact Hv).
    destruct Hcase as [->|Hr]; [apply H1|].
    rewrite (Hrec _ _ _ Hr j).
    destruct (decide (j = idx n)) as [->|Hne].
    + split; [tauto|]. intros [Hu _]. exfalso.
      unfold site_is_valid in Hv. rewrite Hv in Hu. discriminate.
    + rewrite uncleared_set_valid_ne, H1 by exact Hne. tauto.
Qed.

Lemma clear_neighbors_clears (fuel : nat) :
  forall (F : t) (s : Site) (F' : t),
    clear_neighbors neighbours fuel F s = Some F' -> clears F s F'.
Proof.
  induction fuel as [|fuel IH]; intros F s F' H; [discriminate|].
  simpl in H.
  destruct (get_neighbor_count F s =? 0)%Z eqn:Hz.
  - injection H as <-. intros j. split; [|tauto].
    intros Hu. split; [exact Hu|]. intros ->.
    apply Z.eqb_eq in Hz. destruct Hu as [_ Hc]. apply Hc. exact Hz.
  - destruct (fold_left _ _ _) as [F1|] eqn:Hfold; [|discriminate].
    injection H as <-. intros j.
    rewrite uncleared_set_count_zero.
    rewrite (visit_neighbor_uncleared _ IH _ _ _ Hfold j). reflexivity.
Qed.

(** *** Termination: the fuel suffices *)

Lemma num_valid_insert_false (v : list bool) (i : nat) :
  v !! i = Some true -> S (num_valid (<[i := false]> v)) = num_valid v.
Proof.
  revert i. induction v as [|b v IH]; intros i E; [discriminate|].
  destruct i as [|i]; simpl in E.
  - injection E as ->. reflexivity.
  - simpl. rewrite !num_valid_cons, <- (IH i E). destruct b; simpl; lia.
Qed.

Lemma visit_neighbor_total (recurse : t -> Site -> option t) (bound : nat) :
  (forall F s, num_valid (is_valid F) < bound ->
     exists F', recurse F s = Some F'
                /\ num_valid (is_valid F') <= num_valid (is_valid F)) ->
  forall (l : list Site) (F : t),
    num_valid (is_valid F) <= bound ->
    exists F', fold_left (visit_neighbor recurse) l (Some F) = Some F'
               /\ num_valid (is_valid F') <= num_valid (is_valid F).
Proof.
  intros Hrec l. induction l as [|n l IH]; intros F Hb.
  - exists F. split; [reflexivity|lia].
  - change (fold_left (visit_neighbor recurse) (n :: l) (Some F))
      with (fold_left (visit_neighbor recurse) l
              (visit_neighbor recurse (Some F) n)).
    assert (Hstep : exists F2, visit_neighbor recurse (Some F) n = Some F2
                      /\ num_valid (is_valid F2) <= num_valid (is_valid F)).
    { unfold visit_neighbor. destruct (site_is_valid F n) eqn:Hv; simpl.
      - destruct (_ <? _)%Z.
        + destruct (Hrec (set_valid
                            (set_neighbor_count F n (get_neighbor_count F n - 1))
                            n false) n) as (F3 & H3 & Hle).
          * simpl. unfold site_is_valid in Hv.
            destruct (is_valid F !! idx n) as [[|]|] eqn:E; try discriminate.
            pose proof (num_valid_insert_false _ _ E). lia.
          * exists F3. split; [exact H3|].
            simpl in Hle. unfold site_is_valid in Hv.
            destruct (is_valid F !! idx n) as [[|]|] eqn:E; try discriminate.
            pose proof (num_valid_insert_false _ _ E). lia.
        + eexists. split; [reflexivity|]. simpl. lia.
      - exists F. split; [reflexivity|lia]. }
    destruct Hstep as (F2 & -> & Hle).
    destruct (IH F2) as (F' & HF' & Hle'); [lia|].
    exists F'. split; [exact HF'|lia].
Qed.

Lemma clear_neighbors_total (fuel : nat) :
  forall (F : t) (s : Site),
    num_valid (is_valid F) < fuel ->
    exists F', clear_neighbors neighbours fuel F s = Some F'
               /\ num_valid (is_valid F') <= num_valid (is_valid F).
Proof.
  induction fuel as [|fuel IH]; intros F s Hf; [lia|].
  simpl. destruct (get_neighbor_count F s =? 0)%Z.
  - exists F. split; [reflexivity|lia].
  - destruct (visit_neighbor_total _ fuel IH (neighbours F s) F)
      as (F1 & -> & Hle); [lia|].
    eexists. split; [reflexivity|]. simpl. exact Hle.
Qed.

(** More fuel does not change a result. *)
Lemma visit_neighbor_mono (r1 r2 : t -> Site -> option t) :
  (forall F s F', r1 F s = Some F' -> r2 F s = Some F') ->
  forall (l : list Site) (a : option t) (F' : t),
    fold_left (visit_neighbor r1) l a = Some F' ->
    fold_left (visit_neighbor r2) l a = Some F'.
Proof.
  intros Hr l. induction l as [|n l IH]; intros a F' H; [exact H|].
  simpl in *. destruct a as [F|];
    [|rewrite visit_neighbor_None in H; discriminate].
  destruct (visit_neighbor r1 (Some F) n) as [F2|] eqn:E;
    [|rewrite visit_neighbor_None in H; discriminate].
  assert (E2 : visit_neighbor r2 (Some F) n = Some F2).
  { revert E. unfold visit_neighbor.
    destruct (negb _); [congruence|]. destruct (_ <? _)%Z; [apply Hr|congruence]. }
  rewrite E2. apply IH. exact H.
Qed.

Lemma clear_neighbors_fuel_mono (n m : nat) (F : t) (s : Site) (F' : t) :
  n <= m ->
  clear_neighbors neighbours n F s = Some F' ->
  clear_neighbors neighbours m F s = Some F'.
Proof.
  revert m F s F'. induction n as [|n IH]; intros m F s F' Hnm H; [discriminate|].
  destruct m as [|m]; [lia|]. simpl in *.
  destruct (get_neighbor_count F s =? 0)%Z; [exact H|].
  destruct (fold_left (visit_neighbor (clear_neighbors neighbours n)) _ _) as [F1|] eqn:E;
    [|discriminate].
  rewrite (visit_neighbor_mono _ (clear_neighbors neighbours m)
             (fun F s F' => IH m F s F' ltac:(lia)) _ _ _ E).
  exact H.
Qed.

(** The calls leave the number of sites alone. *)
Lemma visit_neighbor_num_sites (recurse : t -> Site -> option t) :
  (forall F s F', recurse F s = Some F' -> num_sites F' = num_sites F) ->
  forall (l : list Site) (F F' : t),
    fold_left (visit_neighbor recurse) l (Some F) = Some F' ->
    num_sites F' = num_sites F.
Proof.
  intros Hrec l. induction l as [|n l IH]; intros F F' Hfold.
  - injection Hfold as <-. reflexivity.
  - change (fold_left (visit_neighbor recurse) l
              (visit_neighbor recurse (Some F) n) = Some F') in Hfold.
    destruct (visit_neighbor recurse (Some F) n) as [F2|] eqn:Hstep;
      [|rewrite visit_neighbor_None in Hfold; discriminate].
    rewrite (IH _ _ Hfold).
    destruct (visit_neighbor_Some _ _ _ _ Hstep) as [[_ ->]|[_ [->|Hr]]];
      [reflexivity|reflexivity|].
    rewrite (Hrec _ _ _ Hr). reflexivity.
Qed.

Lemma clear_neighbors_num_sites (fuel : nat) :
  forall (F : t) (s : Site) (F' : t),
    clear_neighbors neighbours fuel F s = Some F' -> num_sites F' = num_sites F.
Proof.
  induction fuel as [|fuel IH]; intros F s F' H; [discriminate|].
  simpl in H. destruct (get_neighbor_count F s =? 0)%Z; [congruence|].
  destruct (fold_left _ _ _) as [F1|] eqn:Hfold; [|discriminate].
  injection H as <-. simpl.
  exact (visit_neighbor_num_sites _ IH _ _ _ Hfold).
Qed.

(** *** The pass over all sites *)

Lemma trim_site_None (fuel : nat) (l : list nat) :
  fold_left (trim_site neighbours fuel) l None = None.
Proof. induction l as [|x l IH]; [reflexivity|exact IH]. Qed.

(** The pass ends, and validity only shrinks. *)
Lemma trim_sites_total (fuel : nat) (l : list nat) :
  forall F, num_valid (is_valid F) < fuel ->
    exists F', fold_left (trim_site neighbours fuel) l (Some F) = Some F'
               /\ num_valid (is_valid F') <= num_valid (is_valid F).
Proof.
  induction l as [|k l IH]; intros F Hf.
  - exists F. split; [reflexivity|lia].
  - simpl. destruct (negb (site_is_valid F (site_at F k))).
    + destruct (clear_neighbors_total fuel F (site_at F k) Hf) as (F1 & -> & Hle).
      destruct (IH F1) as (F' & HF' & Hle'); [lia|].
      exists F'. split; [exact HF'|lia].
    + apply IH. exact Hf.
Qed.

(** After the pass no visited site is left uncleared, and no site has
    become uncleared. *)
Lemma trim_sites_uncleared (fuel : nat) (l : list nat) :
  forall F F', fold_left (trim_site neighbours fuel) l (Some F) = Some F' ->
    num_sites F' = num_sites F
    /\ forall j, uncleared F' j -> uncleared F j /\ ~ In j l.
Proof.
  induction l as [|k l IH]; intros F F' H.
  - injection H as <-. split; [reflexivity|]. intros j Hj. split; [exact Hj|intros []].
  - simpl in H. destruct (site_is_valid F (site_at F k)) eqn:Hv; simpl in H.
    + destruct (IH _ _ H) as [Hn Hu]. split; [exact Hn|].
      intros j Hj. destruct (Hu j Hj) as [HF Hnin]. split; [exact HF|].
      intros [<-|Hin]; [|exact (Hnin Hin)].
      destruct HF as [HF _]. unfold site_is_valid in Hv. simpl in Hv.
      rewrite Hv in HF. discriminate.
    + destruct (clear_neighbors neighbours fuel F (site_at F k)) as [F1|] eqn:Hc;
        [|rewrite trim_site_None in H; discriminate].
      destruct (IH _ _ H) as [Hn Hu].
      pose proof (clear_neighbors_clears _ _ _ _ Hc) as Hcl.
      split.
      * rewrite Hn. exact (clear_neighbors_num_sites _ _ _ _ Hc).
      * intros j Hj. destruct (Hu j Hj) as [H1 Hnin].
        apply Hcl in H1. destruct H1 as [HF Hne]. split; [exact HF|].
        intros [<-|Hin]; [apply Hne; reflexivity|exact (Hnin Hin)].
Qed.

(** A pass over a Foundation without uncleared sites changes nothing. *)
Lemma trim_sites_fixed (fuel : nat) (l : list nat) (F : t) :
  (forall j, In j l -> ~ uncleared F j) ->
  fold_left (trim_site neighbours (S fuel)) l (Some F) = Some F.
Proof.
  induction l as [|k l IH]; intros Hl; [reflexivity|].
  assert (Hk : trim_site neighbours (S fuel) (Some F) k = Some F).
  { unfold trim_site. destruct (site_is_valid F (site_at F k)) eqn:Hv;
      [reflexivity|]. simpl.
    destruct (get_neighbor_count F (site_at F k) =? 0)%Z eqn:Hz; [reflexivity|].
    exfalso. apply (Hl k); [left; reflexivity|].
    split; [exact Hv|]. apply Z.eqb_neq in Hz. exact Hz. }
  change (fold_left (trim_site neighbours (S fuel)) l
            (trim_site neighbours (S fuel) (Some F) k)
          = Some F).
  rewrite Hk. apply IH.
  intros j Hj. apply Hl. right. exact Hj.
Qed.

(** [trim_edges] always returns: the fuel it passes on suffices. *)
Lemma trim_edges_total (F : t) : exists F', trim_edges neighbours F = Some F'.
Proof.
  destruct (trim_sites_total (S (num_valid (is_valid F)))
              (seq 0 (num_sites F)) F) as (F' & H & _); [lia|].
  exists F'. exact H.
Qed.

(** C2: trimming is idempotent.  [trim_edges] returns for every Foundation;
    run again on its own result it returns that result unchanged, so the
    second pass yields the same [is_valid] array as the first. *)
Theorem trim_edges_idempotent (F : Foundation.t) :
  exists F1 F2,
    trim_edges neighbours F = Some F1
    /\ trim_edges neighbours F1 = Some F2
    /\ is_valid F2 = is_valid F1
    /\ F2 = F1.
Proof.
  destruct (trim_edges_total F) as [F1 H1].
  exists F1, F1. split; [exact H1|].
  assert (H2 : trim_edges neighbours F1 = Some F1).
  { unfold trim_edges in *.
    destruct (trim_sites_uncleared _ _ _ _ H1) as [Hn Hu].
    apply trim_sites_fixed. intros j Hj Hunc.
    destruct (Hu j Hunc) as [_ Hnin]. apply Hnin.
    rewrite Hn in Hj. exact Hj. }
  split; [exact H2|]. split; reflexivity.
Qed.

(** On a chain of five sites whose first site lies outside the shape: with
    the threshold 2 the erosion runs through the whole chain, with the
    threshold 1 it stops at once; a second pass changes neither result. *)
Example trim_edges_chain :
  is_valid <$> trim_edges for_each_neighbour
                 (Fixtures.chain 2 [false; true; true; true; true])
  = Some [false; false; false; false; false]
  /\ (is_valid <$> trim_edges for_each_neighbour
                     (Fixtures.chain 1 [false; true; true; true; true])
      = Some [false; true; true; true; true]
      /\ neighbour_count <$> trim_edges for_each_neighbour
                               (Fixtures.chain 1 [false; true; true; true; true])
         = Some [0; 1; 2; 2; 1]%Z)
  /\ (trim_edges for_each_neighbour
        (Fixtures.chain 2 [false; true; true; true; true])
        ≫= trim_edges for_each_neighbour)
     = trim_edges for_each_neighbour
         (Fixtures.chain 2 [false; true; true; true; true]).
Proof. repeat split; vm_compute; reflexivity. Qed.

End TrimmingFacts.

(** ** [init_neighbor_count] *)

Section InitNeighborCount.
Import Foundation.

Lemma int16_t_idem (x y : Z) :
  Int.int16_t (Int.int16_t x + y) = Int.int16_t (x + y).
Proof.
  unfold Int.int16_t, Int.wrap. f_equal.
  replace ((x + 2 ^ (16 - 1)) mod 2 ^ 16 - 2 ^ (16 - 1) + y + 2 ^ (16 - 1))%Z
    with ((x + 2 ^ (16 - 1)) mod 2 ^ 16 + y)%Z by lia.
  rewrite Zplus_mod_idemp_l. f_equal. lia.
Qed.

Lemma int16_t_small (x : Z) :
  (- 2 ^ 15 <= x <= Int.int16_max)%Z -> Int.int16_t x = x.
Proof.
  unfold Int.int16_t, Int.wrap, Int.int16_max. intros H.
  rewrite Z.mod_small; lia.
Qed.

Lemma out_of_bounds_leaves_block (F : t) (site : Site) (h : Lattice.Hopping) :
  out_of_bounds F (Idx.add (index site) (Lattice.relative_index h))
  = leaves_block F site h.
Proof.
  unfold out_of_bounds, leaves_block, Idx.any_lt0, Idx.any_ge.
  cbv zeta.
  repeat match goal with |- context [(?a <? ?b)%Z] =>
    destruct (a <? b)%Z end;
  repeat match goal with |- context [(?a >=? ?b)%Z] =>
    destruct (a >=? b)%Z end; reflexivity.
Qed.

(** The loop over the hoppings of one site. *)
Lemma count_neighbors_loop (F : t) (site : Site) (l : list Lattice.Hopping) (a : Z) :
  fold_left
    (fun num_neighbors hopping =>
       if out_of_bounds F (Idx.add (index site) (Lattice.relative_index hopping))
       then Int.int16_t (num_neighbors - 1)
       else num_neighbors)
    l (Int.int16_t a)
  = Int.int16_t (a - Z.of_nat (length (List.filter (leaves_block F site) l))).
Proof.
  revert a. induction l as [|h l IH]; intros a.
  - simpl. f_equal. lia.
  - simpl. rewrite out_of_bounds_leaves_block.
    destruct (leaves_block F site h).
    + replace (Int.int16_t a - 1)%Z with (Int.int16_t a + -1)%Z by lia.
      rewrite int16_t_idem, IH. f_equal. simpl length. lia.
    + apply IH.
Qed.

Lemma count_neighbors_eq (F : t) (site : Site) :
  count_neighbors F site
  = Int.int16_t (Z.of_nat (length (site_hoppings F site))
                 - Z.of_nat (length (edge_hoppings F site))).
Proof. unfold count_neighbors. apply count_neighbors_loop. Qed.

(** The loop over the sites writes every entry. *)
Lemma init_neighbor_count_loop (F : t) (n k : nat) :
  k <= n ->
  fold_left
    (fun counts site => <[idx site := count_neighbors F site]> counts)
    (map (site_at F) (seq 0 k))
    (replicate n 0%Z)
  = map (fun i => count_neighbors F (site_at F i)) (seq 0 k)
    ++ replicate (n - k) 0%Z.
Proof.
  induction k as [|k IH]; intros Hk.
  - simpl. rewrite Nat.sub_0_r. reflexivity.
  - rewrite seq_S, !map_app, fold_left_app, IH by lia. simpl.
    replace (n - k) with (S (n - S k)) by lia.
    rewrite insert_app_r_alt by (rewrite length_map, length_seq; lia).
    rewrite length_map, length_seq, Nat.sub_diag. simpl.
    rewrite <- app_assoc. reflexivity.
Qed.

Lemma init_neighbor_count_lookup (F : t) (k : nat) :
  k < num_sites F ->
  neighbour_count (init_neighbor_count F) !! k
  = Some (count_neighbors F (site_at F k)).
Proof.
  intros Hk. unfold init_neighbor_count, sites. simpl.
  rewrite (init_neighbor_count_loop F (num_sites F) (num_sites F)) by lia.
  rewrite Nat.sub_diag, app_nil_r.
  change (map ?g ?l) with (g <$> l).
  rewrite list_lookup_fmap, lookup_seq_lt by exact Hk. reflexivity.
Qed.

(** C3, as the code has it: the initial neighbour count of every site is
    the length of its sublattice's hopping list, minus one for each hopping
    whose target unit cell lies outside the block, reduced to the range of
    the [int16_t] in which it is counted; it is exactly that difference
    whenever the hopping list has at most 32767 entries. *)
Theorem init_neighbor_count_counts (F : Foundation.t) (k : nat) :
  k < num_sites F ->
  neighbour_count (init_neighbor_count F) !! k
  = Some (Int.int16_t (Z.of_nat (length (site_hoppings F (site_at F k)))
                       - Z.of_nat (length (edge_hoppings F (site_at F k)))))
  /\ ((Z.of_nat (length (site_hoppings F (site_at F k))) <= Int.int16_max)%Z ->
      neighbour_count (init_neighbor_count F) !! k
      = Some (Z.of_nat (length (site_hoppings F (site_at F k)))
              - Z.of_nat (length (edge_hoppings F (site_at F k))))%Z).
Proof.
  intros Hk. rewrite init_neighbor_count_lookup, count_neighbors_eq by exact Hk.
  split; [reflexivity|]. intros Hlen. f_equal. apply int16_t_small.
  assert (length (edge_hoppings F (site_at F k))
          <= length (site_hoppings F (site_at F k)))
    by apply List.filter_length_le.
  lia.
Qed.

(** On the chain of five sites the two end sites count one neighbour and
    the inner sites two. *)
Lemma init_neighbor_count_counts_witness :
  1 < num_sites (Fixtures.chain 1 [true; true; true; true; true])
  /\ neighbour_count (Fixtures.chain 1 [true; true; true; true; true])
     = [1; 2; 2; 2; 1]%Z
  /\ neighbour_count
       (init_neighbor_count (Fixtures.chain 1 [true; true; true; true; true]))
     !! 1
     = Some 2%Z.
Proof.
  split; [simpl; lia|]. split; [reflexivity|].
  exact (proj1 (init_neighbor_count_counts
                  (Fixtures.chain 1 [true; true; true; true; true]) 1
                  ltac:(simpl; lia))).
Defined.

(** The first site of the long-range fixture: [n] hoppings, none of which
    leaves the block. *)
Lemma long_range_site_hoppings (n : nat) :
  site_hoppings (Fixtures.long_range n) (site_at (Fixtures.long_range n) 0)
  = Fixtures.long_range_hoppings n.
Proof. reflexivity. Qed.

Lemma long_range_length (n : nat) :
  length (Fixtures.long_range_hoppings n) = n.
Proof.
  unfold Fixtures.long_range_hoppings. rewrite length_map, length_seq.
  reflexivity.
Qed.

Lemma filter_none {A : Type} (p : A -> bool) (l : list A) :
  (forall x, In x l -> p x = false) -> List.filter p l = [].
Proof.
  induction l as [|x l IH]; intros H; [reflexivity|]. simpl.
  rewrite (H x) by (left; reflexivity). apply IH.
  intros y Hy. apply H. right. exact Hy.
Qed.

Lemma long_range_edge_hoppings (n : nat) :
  edge_hoppings (Fixtures.long_range n) (site_at (Fixtures.long_range n) 0) = [].
Proof.
  unfold edge_hoppings. rewrite long_range_site_hoppings.
  apply filter_none. intros h Hh.
  unfold Fixtures.long_range_hoppings in Hh.
  apply in_map_iff in Hh. destruct Hh as (k & <- & Hk).
  apply in_seq in Hk.
  change (site_at (Fixtures.long_range n) 0) with (mkSite (Index3 0 0 0) 0 0).
  unfold leaves_block, Idx.add, Fixtures.long_range. simpl.
  rewrite !orb_false_iff, !Z.geb_leb, !Z.ltb_ge, !Z.leb_gt. lia.
Qed.

Lemma long_range_count (n : nat) :
  neighbour_count (init_neighbor_count (Fixtures.long_range n)) !! 0
  = Some (Int.int16_t (Z.of_nat n)).
Proof.
  rewrite init_neighbor_count_lookup, count_neighbors_eq by (simpl; lia).
  rewrite long_range_edge_hoppings, long_range_site_hoppings, long_range_length.
  simpl length. rewrite Z.sub_0_r. reflexivity.
Qed.

(** C3 as stated fails where the count leaves the [int16_t] range: a site
    with 32768 hoppings, all inside the block, starts with the count
    -32768, while the length of the list less the hoppings that leave the
    block is 32768. *)
Lemma init_neighbor_count_wraps :
  neighbour_count
    (init_neighbor_count (Fixtures.long_range (Z.to_nat 32768))) !! 0
  = Some (-32768)%Z
  /\ (Z.of_nat (length (site_hoppings (Fixtures.long_range (Z.to_nat 32768))
                          (site_at (Fixtures.long_range (Z.to_nat 32768)) 0)))
      - Z.of_nat (length (edge_hoppings (Fixtures.long_range (Z.to_nat 32768))
                            (site_at (Fixtures.long_range (Z.to_nat 32768)) 0))))%Z
     = 32768%Z.
Proof.
  rewrite long_range_count, long_range_edge_hoppings,
    long_range_site_hoppings, long_range_length.
  rewrite Z2Nat.id by lia. split; reflexivity.
Qed.

End InitNeighborCount.

(** ** [make_sublattice_ids] *)

Section SublatticeIds.
Import Foundation.

Lemma int8_t_small (x : Z) : (0 <= x <= Int.int8_max)%Z -> Int.int8_t x = x.
Proof.
  unfold Int.int8_t, Int.wrap, Int.int8_max. intros H.
  rewrite Z.mod_small; lia.
Qed.

(** The inner loop, entered with [id = j] at position [i], writes
    [j, j+1, ..., n-1] to the positions from [i] on and leaves the rest. *)
Lemma sublattice_ids_inner_spec (n : nat) :
  (Z.of_nat n <= Int.int8_max)%Z ->
  forall (fuel j i : nat) (ids : list Z),
    j <= n -> n - j <= fuel -> i + (n - j) <= length ids ->
    exists ids',
      sublattice_ids_inner fuel (Z.of_nat n) (Z.of_nat j) i ids
      = Some (ids', i + (n - j))
      /\ length ids' = length ids
      /\ (forall p, p < i -> ids' !! p = ids !! p)
      /\ (forall q, q < n - j -> ids' !! (i + q) = Some (Z.of_nat (j + q))).
Proof.
  intros Hn fuel. induction fuel as [|fuel IH]; intros j i ids Hj Hf Hi.
  - assert (j = n) as -> by lia. exists ids. simpl.
    rewrite Z.ltb_irrefl, Nat.sub_diag, Nat.add_0_r.
    split; [reflexivity|]. split; [reflexivity|]. split; [reflexivity|].
    intros q Hq. lia.
  - simpl. destruct (Z.of_nat j <? Z.of_nat n)%Z eqn:Hlt.
    + apply Z.ltb_lt in Hlt.
      rewrite int8_t_small by lia.
      replace (Z.of_nat j + 1)%Z with (Z.of_nat (S j)) by lia.
      destruct (IH (S j) (S i) (<[i := Z.of_nat j]> ids)) as (ids' & He & Hl & Hp & Hq);
        [lia|lia|rewrite length_insert; lia|].
      exists ids'. rewrite He. rewrite length_insert in Hl.
      split; [f_equal; f_equal; lia|]. split; [exact Hl|]. split.
      * intros p Hpi. rewrite Hp by lia.
        apply list_lookup_insert_ne. lia.
      * intros q Hqn. destruct q as [|q].
        -- rewrite Nat.add_0_r, Hp by lia.
           rewrite list_lookup_insert_eq by lia. f_equal. lia.
        -- replace (i + S q) with (S i + q) by lia.
           rewrite Hq by lia. f_equal. lia.
    + apply Z.ltb_ge in Hlt. assert (j = n) as -> by lia.
      exists ids. rewrite Nat.sub_diag, Nat.add_0_r.
      split; [reflexivity|]. split; [reflexivity|]. split; [reflexivity|].
      intros q Hq. lia.
Qed.

Lemma sublattice_ids_outer_S (fuel n : nat) (max_id : Z) (i : nat) (ids : list Z) :
  sublattice_ids_outer (S fuel) n max_id i ids
  = if i <? n then
      match sublattice_ids_inner 128 max_id 0 i ids with
      | None => None
      | Some (ids, i) => sublattice_ids_outer fuel n max_id i ids
      end
    else Some ids.
Proof. reflexivity. Qed.

(** The outer loop, entered at the start of unit cell [c] with the ids of
    the cells before it in place, fills in the rest. *)
Lemma sublattice_ids_outer_spec (n cells : nat) :
  (Z.of_nat n <= Int.int8_max)%Z ->
  forall (fuel c : nat) (ids : list Z),
    c <= cells -> (cells - c) * n <= fuel ->
    length ids = cells * n ->
    (forall p, p < c * n -> ids !! p = Some (Z.of_nat (p mod n))) ->
    exists ids',
      sublattice_ids_outer fuel (cells * n) (Z.of_nat n) (c * n) ids = Some ids'
      /\ length ids' = cells * n
      /\ (forall p, p < cells * n -> ids' !! p = Some (Z.of_nat (p mod n))).
Proof.
  intros Hn fuel. induction fuel as [|fuel IH]; intros c ids Hc Hf Hlen Hpre.
  - assert (c * n = cells * n) as Heq by nia.
    exists ids. cbn [sublattice_ids_outer]. rewrite Heq, Nat.ltb_irrefl.
    split; [reflexivity|]. split; [exact Hlen|].
    intros p Hp. apply Hpre. lia.
  - rewrite sublattice_ids_outer_S. destruct (c * n <? cells * n) eqn:Hlt.
    + apply Nat.ltb_lt in Hlt. assert (Hcc : c < cells) by nia.
      assert (Hn0 : 0 < n) by nia.
      destruct (sublattice_ids_inner_spec n Hn 128 0 (c * n) ids)
        as (ids1 & He & Hl & Hp & Hq);
        [lia|unfold Int.int8_max in Hn; lia|nia|].
      change (Z.of_nat 0) with 0%Z in He. rewrite He.
      rewrite Nat.sub_0_r in *.
      replace (c * n + n) with (S c * n) by lia.
      apply IH; [lia|nia|lia|].
      intros p Hpc.
      destruct (Nat.lt_ge_cases p (c * n)) as [Hlo|Hhi].
      * rewrite Hp by exact Hlo. apply Hpre. exact Hlo.
      * replace p with (c * n + (p - c * n)) at 1 by lia.
        rewrite Hq by lia. f_equal. f_equal. simpl.
        apply (Nat.mod_unique p n c (p - c * n)); lia.
    + apply Nat.ltb_ge in Hlt. assert (c * n = cells * n) as Heq by nia.
      exists ids. split; [reflexivity|]. split; [exact Hlen|].
      intros p Hp. apply Hpre. lia.
Qed.

(** C10: for a Foundation whose number of sites is the number of unit
    cells times the number of sublattices, [make_sublattice_ids] returns an
    array of [num_sites] entries whose entry [i] is [i] modulo the number
    of sublattices. *)
Theorem make_sublattice_ids_cycles (F : Foundation.t) (cells : nat) :
  (Z.of_nat (length (Lattice.sublattices (lattice F))) <= Int.int8_max)%Z ->
  num_sites F = cells * length (Lattice.sublattices (lattice F)) ->
  exists ids,
    make_sublattice_ids F = Some ids
    /\ length ids = num_sites F
    /\ (forall i, i < num_sites F ->
          ids !! i
          = Some (Z.of_nat (i mod length (Lattice.sublattices (lattice F))))).
Proof.
  intros Hmax Hsites. unfold make_sublattice_ids.
  rewrite int8_t_small by lia. rewrite Hsites.
  apply (sublattice_ids_outer_spec _ cells Hmax _ 0).
  - lia.
  - nia.
  - apply length_replicate.
  - intros p Hp. simpl in Hp. lia.
Qed.

Lemma make_sublattice_ids_cycles_witness :
  (Z.of_nat (length (Lattice.sublattices (lattice Fixtures.two_sublattices)))
   <= Int.int8_max)%Z
  /\ num_sites Fixtures.two_sublattices
     = 6 * length (Lattice.sublattices (lattice Fixtures.two_sublattices))
  /\ make_sublattice_ids Fixtures.two_sublattices
     = Some [0; 1; 0; 1; 0; 1; 0; 1; 0; 1; 0; 1]%Z
  /\ exists ids, make_sublattice_ids Fixtures.two_sublattices = Some ids
                 /\ length ids = 12.
Proof.
  split; [vm_compute; discriminate|]. split; [reflexivity|].
  split; [vm_compute; reflexivity|].
  destruct (make_sublattice_ids_cycles Fixtures.two_sublattices 6) as (ids & H & Hl & _).
  - vm_compute. discriminate.
  - reflexivity.
  - exists ids. split; [exact H|exact Hl].
Defined.

End SublatticeIds.

(** ** [add_unique] *)

Section AddUnique.
Import Modifiers.

Lemma find_spec {T : Type} (v : list (shared_ptr T)) (m : shared_ptr T) :
  find v m = true <-> exists x, In x v /\ address x = address m.
Proof.
  unfold find. rewrite existsb_exists. unfold ptr_eqb.
  split; intros (x & Hx & He); exists x; (split; [exact Hx|]).
  - apply N.eqb_eq. exact He.
  - apply N.eqb_eq. exact He.
Qed.

Lemma add_unique_fresh {T : Type} (v : list (shared_ptr T)) (m : shared_ptr T) :
  (forall x, In x v -> address x <> address m) ->
  add_unique v m = (v ++ [m], true).
Proof.
  intros H. unfold add_unique.
  destruct (find v m) eqn:E; [|reflexivity].
  apply find_spec in E. destruct E as (x & Hx & He).
  exfalso. exact (H x Hx He).
Qed.

Lemma add_unique_present {T : Type} (v : list (shared_ptr T)) (m : shared_ptr T) :
  (exists x, In x v /\ address x = address m) ->
  add_unique v m = (v, false).
Proof.
  intros H. apply find_spec in H. unfold add_unique. rewrite H. reflexivity.
Qed.

(** The handle just added is found, whatever it points to. *)
Lemma add_unique_again {T : Type} (v : list (shared_ptr T)) (m m' : shared_ptr T) :
  address m' = address m ->
  add_unique (fst (add_unique v m)) m' = (fst (add_unique v m), false).
Proof.
  intros Ha. apply add_unique_present.
  unfold add_unique. destruct (find v m) eqn:E; simpl.
  - apply find_spec in E. destruct E as (x & Hx & He).
    exists x. split; [exact Hx|congruence].
  - exists m. split; [apply in_or_app; right; left; reflexivity|congruence].
Qed.

Lemma count_fresh {T : Type} (v : list (shared_ptr T)) (m : shared_ptr T) :
  (forall x, In x v -> address x <> address m) ->
  length (List.filter (fun x => ptr_eqb x m) (v ++ [m])) = 1.
Proof.
  intros H. rewrite List.filter_app, length_app. simpl.
  unfold ptr_eqb at 2. rewrite N.eqb_refl. simpl.
  assert (E : List.filter (fun x => ptr_eqb x m) v = []).
  { induction v as [|y v IH]; [reflexivity|]. simpl.
    destruct (ptr_eqb y m) eqn:Ey.
    - apply N.eqb_eq in Ey. exfalso. apply (H y); [left; reflexivity|exact Ey].
    - apply IH. intros x Hx. apply H. right. exact Hx. }
  rewrite E. reflexivity.
Qed.

(** C7: on each of the four modifier lists, [add_unique(m)] appends [m]
    and returns true when no handle with the address of [m] is in the
    list, and otherwise leaves the list as it is and returns false, whatever
    the handles point to; so after adding the same handle twice to a list
    that did not hold it, the list holds it exactly once. *)
Theorem add_unique_by_identity (A B C D : Type)
    (sm : SystemModifiers A B) (hm : HamiltonianModifiers C D)
    (ms : shared_ptr A) (mp : shared_ptr B)
    (mo : shared_ptr C) (mh : shared_ptr D) :
  (* the four overloads *)
  (add_unique_state sm ms
   = (mkSystemModifiers A B (fst (add_unique (state sm) ms)) (position sm),
      snd (add_unique (state sm) ms))
   /\ add_unique_position sm mp
     = (mkSystemModifiers A B (state sm) (fst (add_unique (position sm) mp)),
        snd (add_unique (position sm) mp))
   /\ add_unique_onsite hm mo
     = (mkHamiltonianModifiers C D (fst (add_unique (onsite hm) mo)) (hopping hm),
        snd (add_unique (onsite hm) mo))
   /\ add_unique_hopping hm mh
     = (mkHamiltonianModifiers C D (onsite hm) (fst (add_unique (hopping hm) mh)),
        snd (add_unique (hopping hm) mh)))
  (* their common body *)
  /\ (forall (T : Type) (v : list (shared_ptr T)) (m : shared_ptr T),
        ((forall x, In x v -> address x <> address m) ->
         add_unique v m = (v ++ [m], true))
        /\ ((exists x, In x v /\ address x = address m) ->
            add_unique v m = (v, false))
        /\ add_unique (fst (add_unique v m)) m = (fst (add_unique v m), false)
        /\ ((forall x, In x v -> address x <> address m) ->
            length (List.filter (fun x => ptr_eqb x m)
                      (fst (add_unique (fst (add_unique v m)) m))) = 1)).
Proof.
  split.
  - unfold add_unique_state, add_unique_position, add_unique_onsite,
      add_unique_hopping.
    repeat split;
      match goal with |- context [add_unique ?v ?m] =>
        destruct (add_unique v m) end; reflexivity.
  - intros T v m. split; [apply add_unique_fresh|].
    split; [apply add_unique_present|].
    split; [apply add_unique_again; reflexivity|].
    intros Hf. rewrite add_unique_again by reflexivity. simpl.
    rewrite add_unique_fresh by exact Hf. simpl. apply count_fresh. exact Hf.
Qed.

End AddUnique.

(** ** [uref_cast] *)

Section URefCast.
Import URef.

Lemma ScalarType_eqb_eq (a b : ScalarType) : ScalarType_eqb a b = true <-> a = b.
Proof. destruct a, b; simpl; split; intros H; congruence. Qed.

(** C5, as the code has it: [uref_cast<Derived>(u)] throws exactly when the
    tag of [u] differs from the tag of [Derived]'s scalar; when the tags
    match it returns a view of that scalar type over the data pointer of
    [u].  A dimension of the view that [Derived] fixes at compile time is
    [Derived]'s own.  A dimension that [Derived] leaves dynamic is, when
    [Derived] is a matrix type, the rows respectively the columns of [u],
    and, when [Derived] is a vector type, the single length [u.cols]
    (row-major [u]) or [u.rows] (column-major [u]). *)
Theorem uref_cast_checked (D : Derived) (u : DenseURef) :
  ((exists what, uref_cast D u = Throws what) <-> type u <> get_type (Scalar D))
  /\ (type u = get_type (Scalar D) ->
      exists m, uref_cast D u = Returns m
        /\ map_data m = data u
        /\ map_scalar m = Scalar D
        /\ (forall r, RowsAtCompileTime D = Some r -> map_rows m = r)
        /\ (forall c, ColsAtCompileTime D = Some c -> map_cols m = c)
        /\ (IsVectorAtCompileTime D = false ->
            (RowsAtCompileTime D = None -> map_rows m = rows u)
            /\ (ColsAtCompileTime D = None -> map_cols m = cols u))
        /\ (IsVectorAtCompileTime D = true ->
            (RowsAtCompileTime D = None ->
             map_rows m = if is_row_major u then cols u else rows u)
            /\ (ColsAtCompileTime D = None ->
                map_cols m = if is_row_major u then cols u else rows u))).
Proof.
  unfold uref_cast.
  destruct (ScalarType_eqb (type u) (get_type (Scalar D))) eqn:E; simpl.
  - apply ScalarType_eqb_eq in E. split.
    + split; [intros [w Hw]; discriminate|intros Hne; contradiction].
    + intros _. exists (make_map D u). unfold make_map, Map_vector, Map_matrix.
      destruct (IsVectorAtCompileTime D); simpl.
      * do 3 (split; [reflexivity|]).
        split; [intros r ->; reflexivity|].
        split; [intros c ->; reflexivity|].
        split; [discriminate|]. intros _.
        split; intros ->; reflexivity.
      * do 3 (split; [reflexivity|]).
        split; [intros r ->; reflexivity|].
        split; [intros c ->; reflexivity|].
        split; [|discriminate]. intros _.
        split; intros ->; reflexivity.
  - assert (Hne : type u <> get_type (Scalar D)).
    { intros Heq. apply ScalarType_eqb_eq in Heq. congruence. }
    split.
    + split; [intros _; exact Hne|intros _; eexists; reflexivity].
    + intros Heq. contradiction.
Qed.

(** Two fixed-size targets on the 3 by 4 float matrix view: [Vector3f]
    yields a view of 3 rows and 1 column, [Matrix2f] one of 2 rows and 2
    columns; neither takes a dimension from the view it is cast from. *)
Example uref_cast_fixed_size :
  (exists m, uref_cast Vector3f Fixtures.matrix_view = Returns m
     /\ (map_rows m, map_cols m) = (3, 1)%Z)
  /\ (exists m, uref_cast Matrix2f Fixtures.matrix_view = Returns m
       /\ (map_rows m, map_cols m) = (2, 2)%Z).
Proof. split; eexists; split; reflexivity. Qed.

(** C5 as stated fails on the dimensions: a float matrix of 3 rows and 4
    columns read back as [ArrayXf] has a matching tag, and the view
    returned has 3 rows and 1 column. *)
Lemma uref_cast_vector_of_matrix :
  type Fixtures.matrix_view = get_type (Scalar ArrayXf)
  /\ exists m, uref_cast ArrayXf Fixtures.matrix_view = Returns m
       /\ map_data m = data Fixtures.matrix_view
       /\ (map_rows m, map_cols m) = (3, 1)%Z
       /\ (map_rows m, map_cols m)
          <> (rows Fixtures.matrix_view, cols Fixtures.matrix_view).
Proof.
  split; [reflexivity|]. eexists. split; [reflexivity|].
  split; [reflexivity|]. split; [reflexivity|]. discriminate.
Qed.

End URefCast.

(** ** [Lattice::add_registered_hopping] *)

Section AddRegisteredHopping.
Import Lattice.

Lemma Idx_eqb_eq (a b : Index3D) : Idx.eqb a b = true <-> a = b.
Proof.
  destruct a as [a0 a1 a2], b as [b0 b1 b2]. unfold Idx.eqb. simpl.
  rewrite !andb_true_iff, !Z.eqb_eq. split.
  - intros [[-> ->] ->]. reflexivity.
  - intros H. injection H as -> -> ->. auto.
Qed.

Lemma Sublattice_add_hopping_Returns (s s' : Sublattice) (rel : Index3D)
    (to_sub hop_id : Z) (c : bool) :
  Sublattice_add_hopping s rel to_sub hop_id c = Returns s' ->
  hoppings s' = hoppings s ++ [mkHopping rel to_sub hop_id c].
Proof.
  unfold Sublattice_add_hopping. destruct (existsb _ _); [discriminate|].
  intros H. injection H as <-. reflexivity.
Qed.

Lemma get_set_sublattice (L : t) (sub : Z) (s : Sublattice) :
  sub_in_range L sub = true -> get (set_sublattice L sub s) sub = s.
Proof.
  unfold sub_in_range, get, set_sublattice. simpl.
  rewrite andb_true_iff, Z.leb_le, Z.ltb_lt. intros [H0 H1].
  destruct (sub <? 0)%Z eqn:E; [apply Z.ltb_lt in E; lia|].
  rewrite list_lookup_insert_eq by lia. reflexivity.
Qed.

Lemma get_set_sublattice_ne (L : t) (sub sub' : Z) (s : Sublattice) :
  (0 <= sub)%Z -> sub' <> sub -> get (set_sublattice L sub s) sub' = get L sub'.
Proof.
  intros H0 Hne. unfold get, set_sublattice. simpl.
  destruct (sub' <? 0)%Z eqn:E; [reflexivity|]. apply Z.ltb_ge in E.
  rewrite list_lookup_insert_ne by lia. reflexivity.
Qed.

Lemma sub_in_range_set (L : t) (sub sub' : Z) (s : Sublattice) :
  sub_in_range (set_sublattice L sub s) sub' = sub_in_range L sub'.
Proof.
  unfold sub_in_range, set_sublattice. simpl. rewrite length_insert.
  reflexivity.
Qed.

(** C6: [add_registered_hopping] throws when [from_sub] or [to_sub] is not
    a sublattice id, when [hop_id] is not the id of a registered energy,
    and when the offset is zero with [from_sub = to_sub].  When it returns,
    sublattice [from_sub] has gained the record with the offset and
    sublattice [to_sub] the mirrored record with the negated offset (both
    on the one list, in this order, when [from_sub = to_sub]); the
    sublattices or the two offsets differ in that case, and no other
    sublattice has changed. *)
Theorem add_registered_hopping_records (L : Lattice.t) (rel : Index3D)
    (from_sub to_sub hop_id : Z) :
  ((from_sub < 0 \/ Z.of_nat (length (sublattices L)) <= from_sub)%Z ->
     exists what, add_registered_hopping L rel from_sub to_sub hop_id = Throws what)
  /\ ((to_sub < 0 \/ Z.of_nat (length (sublattices L)) <= to_sub)%Z ->
     exists what, add_registered_hopping L rel from_sub to_sub hop_id = Throws what)
  /\ ((hop_id < 0 \/ Z.of_nat (length (hopping_energies L)) <= hop_id)%Z ->
     exists what, add_registered_hopping L rel from_sub to_sub hop_id = Throws what)
  /\ (rel = Idx.Zero /\ from_sub = to_sub ->
     exists what, add_registered_hopping L rel from_sub to_sub hop_id = Throws what)
  /\ (forall L', add_registered_hopping L rel from_sub to_sub hop_id = Returns L' ->
       (from_sub <> to_sub \/ rel <> Idx.neg rel)
       /\ (from_sub <> to_sub ->
           hoppings (get L' from_sub)
           = hoppings (get L from_sub) ++ [mkHopping rel to_sub hop_id false]
           /\ hoppings (get L' to_sub)
              = hoppings (get L to_sub)
                ++ [mkHopping (Idx.neg rel) from_sub hop_id true])
       /\ (from_sub = to_sub ->
           hoppings (get L' from_sub)
           = hoppings (get L from_sub)
             ++ [mkHopping rel to_sub hop_id false;
                 mkHopping (Idx.neg rel) from_sub hop_id true])
       /\ (forall sub, sub <> from_sub -> sub <> to_sub -> get L' sub = get L sub)).
Proof.
  unfold add_registered_hopping.
  destruct (sub_in_range L from_sub) eqn:Hf;
    [|repeat split; intros; try discriminate; eexists; reflexivity].
  destruct (sub_in_range L to_sub) eqn:Ht;
    [|repeat split; intros; try discriminate; eexists; reflexivity].
  pose proof Hf as Hf'. pose proof Ht as Ht'.
  unfold sub_in_range in Hf', Ht'.
  rewrite andb_true_iff, Z.leb_le, Z.ltb_lt in Hf', Ht'.
  simpl negb. simpl orb. cbv iota.
  destruct (hop_in_range L hop_id) eqn:Hh;
    [|repeat split; intros; try discriminate; try lia; eexists; reflexivity].
  pose proof Hh as Hh'. unfold hop_in_range in Hh'.
  rewrite andb_true_iff, Z.leb_le, Z.ltb_lt in Hh'.
  simpl negb. cbv iota.
  destruct ((from_sub =? to_sub)%Z && Idx.eqb rel Idx.Zero) eqn:Hz;
    [repeat split; intros; try discriminate; try lia; eexists; reflexivity|].
  split; [intros; lia|]. split; [intros; lia|]. split; [intros; lia|].
  split.
  { intros [-> ->]. rewrite Z.eqb_refl in Hz. simpl in Hz. discriminate. }
  intros L'.
  destruct (Sublattice_add_hopping (get L from_sub) rel to_sub hop_id false)
    as [s1|] eqn:E1; [|discriminate].
  apply Sublattice_add_hopping_Returns in E1. simpl bind.
  assert (Hmirror : from_sub <> to_sub \/ rel <> Idx.neg rel).
  { destruct (Z.eq_dec from_sub to_sub) as [->|Hne]; [|left; exact Hne].
    right. rewrite Z.eqb_refl in Hz. simpl in Hz.
    intros Heq. destruct rel as [r0 r1 r2]. unfold Idx.neg in Heq. simpl in Heq.
    injection Heq as H0 H1 H2.
    assert (Idx.eqb (Index3 r0 r1 r2) Idx.Zero = true)
      by (apply Idx_eqb_eq; unfold Idx.Zero; f_equal; lia).
    congruence. }
  assert (Hguard : negb (from_sub =? to_sub)%Z || negb (Idx.eqb rel (Idx.neg rel))
                   = true).
  { destruct Hmirror as [Hne|Hne].
    - apply Z.eqb_neq in Hne. rewrite Hne. reflexivity.
    - destruct (Idx.eqb rel (Idx.neg rel)) eqn:E;
        [apply Idx_eqb_eq in E; contradiction|].
      apply orb_true_r. }
  rewrite Hguard.
  destruct (Sublattice_add_hopping
              (get (set_sublattice L from_sub s1) to_sub) (Idx.neg rel)
              from_sub hop_id true) as [s2|] eqn:E2; [|discriminate].
  apply Sublattice_add_hopping_Returns in E2. simpl bind.
  intros H. injection H as <-.
  split; [exact Hmirror|]. split; [|split].
  - intros Hne. split.
    + rewrite get_set_sublattice_ne by lia.
      rewrite get_set_sublattice by exact Hf. exact E1.
    + rewrite get_set_sublattice by (rewrite sub_in_range_set; exact Ht).
      rewrite E2, get_set_sublattice_ne by lia. reflexivity.
  - intros ->.
    rewrite get_set_sublattice by (rewrite sub_in_range_set; exact Ht).
    rewrite E2, get_set_sublattice by exact Ht.
    rewrite E1, <- app_assoc. reflexivity.
  - intros sub H1 H2. rewrite !get_set_sublattice_ne by lia. reflexivity.
Qed.

(** The calls of the unit test "Lattice/Add hoppings", with what it
    requires of them. *)
Example add_hoppings_test :
  let L := Fixtures.test_lattice in
  let throws (o : outcome Lattice.t) :=
    match o with Throws _ => true | Returns _ => false end in
  throws (add_registered_hopping L (Index3 0 0 0) 0 0 0) = true
  /\ throws (add_registered_hopping L (Index3 0 0 0) (-1) 0 0) = true
  /\ throws (add_registered_hopping L (Index3 0 0 0) 2 0 0) = true
  /\ throws (add_registered_hopping L (Index3 0 0 0) 0 0 (-1)) = true
  /\ throws (add_registered_hopping L (Index3 0 0 0) 0 0 1) = true
  /\ exists L1 L2 L3,
       add_registered_hopping L (Index3 1 0 0) 0 0 0 = Returns L1
       /\ throws (add_registered_hopping L1 (Index3 1 0 0) 0 0 0) = true
       /\ relative_index <$> hoppings (get L1 0) !! 1 = Some (Index3 (-1) 0 0)
       /\ max_hoppings L1 = 2
       /\ add_registered_hopping L1 (Index3 1 0 0) 0 1 0 = Returns L2
       /\ relative_index <$> hoppings (get L2 1) !! 0 = Some (Index3 (-1) 0 0)
       /\ max_hoppings L2 = 3
       /\ add_registered_hopping L2 (Index3 1 0 0) 1 1 0 = Returns L3
       /\ max_hoppings L3 = 3.
Proof.
  cbv zeta. repeat (split; [reflexivity|]).
  do 3 eexists. repeat (split; [reflexivity|]). reflexivity.
Qed.

End AddRegisteredHopping.

(** ** Generated hoppings in the hopping matrix *)

Section GeneratedHoppings.
Import System.

Lemma upper_ordered (e : Z * Z) : (fst (upper e) <= snd (upper e))%Z.
Proof.
  unfold upper. destruct (fst e <=? snd e)%Z eqn:E; simpl.
  - apply Z.leb_le. exact E.
  - apply Z.leb_gt in E. lia.
Qed.

Lemma upper_swap (a b : Z) : upper (b, a) = upper (a, b).
Proof.
  unfold upper. simpl.
  destruct (b <=? a)%Z eqn:E1, (a <=? b)%Z eqn:E2; try reflexivity.
  - apply Z.leb_le in E1, E2. f_equal; lia.
  - apply Z.leb_gt in E1, E2. lia.
Qed.

(** An edge goes to its upper-triangular position and nowhere else. *)
Lemma add_edge_lookup (hop_id : Z) (m : SparseMatrix) (e k : Z * Z) :
  entries (add_edge hop_id m e) !! k
  = if decide (k = upper e)
    then Some (default hop_id (entries m !! upper e))
    else entries m !! k.
Proof.
  unfold add_edge. destruct (entries m !! upper e) as [x|] eqn:E; simpl.
  - destruct (decide (k = upper e)) as [->|]; [exact E|reflexivity].
  - destruct (decide (k = upper e)) as [->|Hne].
    + apply lookup_insert_eq.
    + apply lookup_insert_ne. congruence.
Qed.

(** The reverse of an edge just added changes nothing. *)
Lemma add_edge_reverse (hop_id : Z) (m : SparseMatrix) (a b : Z) :
  add_edge hop_id (add_edge hop_id m (a, b)) (b, a) = add_edge hop_id m (a, b).
Proof.
  unfold add_edge at 1. rewrite upper_swap, add_edge_lookup.
  destruct (decide (upper (a, b) = upper (a, b))); [reflexivity|contradiction].
Qed.

Lemma add_edge_upper_triangular (hop_id : Z) (m : SparseMatrix) (e : Z * Z) :
  (forall k, is_Some (entries m !! k) -> (fst k <= snd k)%Z) ->
  forall k, is_Some (entries (add_edge hop_id m e) !! k) -> (fst k <= snd k)%Z.
Proof.
  intros Hm k. rewrite add_edge_lookup.
  destruct (decide (k = upper e)) as [->|]; [intros _; apply upper_ordered|apply Hm].
Qed.

Lemma add_hopping_family_upper_triangular (hop_id : Z) (r : Result) (m : SparseMatrix) :
  (forall k, is_Some (entries m !! k) -> (fst k <= snd k)%Z) ->
  forall k, is_Some (entries (add_hopping_family hop_id r m) !! k) ->
            (fst k <= snd k)%Z.
Proof.
  unfold add_hopping_family. generalize (zip (from r) (to r)) as l.
  intros l. revert m. induction l as [|e l IH]; intros m Hm; [exact Hm|].
  simpl. apply IH. apply add_edge_upper_triangular. exact Hm.
Qed.

(** C4: on a system of two sites without hoppings, a generator returning
    [from = [0]], [to = [1]] leaves exactly one stored entry, at (0, 1), and
    none at (1, 0); a generator returning the edge (0, 1) and its reverse
    (1, 0) leaves that same single entry.  In general the entries a
    generator adds are upper-triangular, and the reverse of an edge just
    added collapses onto it. *)
Theorem generated_hoppings_upper_triangular (hop_id : Z) :
  (nonZeros (add_hopping_family hop_id one_edge (empty 2 2)) = 1
   /\ entries (add_hopping_family hop_id one_edge (empty 2 2)) !! (0, 1)%Z
      = Some hop_id
   /\ entries (add_hopping_family hop_id one_edge (empty 2 2)) !! (1, 0)%Z
      = None)
  /\ (nonZeros (add_hopping_family hop_id edge_and_reverse (empty 2 2)) = 1
      /\ entries (add_hopping_family hop_id edge_and_reverse (empty 2 2))
         !! (0, 1)%Z = Some hop_id
      /\ entries (add_hopping_family hop_id edge_and_reverse (empty 2 2))
         !! (1, 0)%Z = None)
  /\ (forall (r : Result) (m : SparseMatrix),
        (forall k, is_Some (entries m !! k) -> (fst k <= snd k)%Z) ->
        forall k, is_Some (entries (add_hopping_family hop_id r m) !! k) ->
                  (fst k <= snd k)%Z)
  /\ (forall (m : SparseMatrix) (a b : Z),
        add_edge hop_id (add_edge hop_id m (a, b)) (b, a)
        = add_edge hop_id m (a, b)).
Proof.
  assert (E1 : add_hopping_family hop_id one_edge (empty 2 2)
               = mkSparse 2 2 {[ (0, 1)%Z := hop_id ]}).
  { unfold add_hopping_family, one_edge, add_edge, empty. simpl.
    rewrite lookup_empty. reflexivity. }
  assert (E2 : add_hopping_family hop_id edge_and_reverse (empty 2 2)
               = mkSparse 2 2 {[ (0, 1)%Z := hop_id ]}).
  { change (add_hopping_family hop_id edge_and_reverse (empty 2 2))
      with (add_edge hop_id (add_edge hop_id (empty 2 2) (0, 1)%Z) (1, 0)%Z).
    rewrite add_edge_reverse.
    unfold add_edge, empty. simpl. rewrite lookup_empty. reflexivity. }
  rewrite E1, E2. unfold nonZeros. simpl.
  rewrite map_size_singleton, lookup_singleton_eq.
  rewrite lookup_singleton_ne by discriminate.
  repeat split.
  - apply add_hopping_family_upper_triangular.
  - apply add_edge_reverse.
Qed.

End GeneratedHoppings.

(** ** [nonzeros_per_row] *)

Section NonzerosPerRow.
Import System.




End NonzerosPerRow.

(** ** [find_bounds] *)

Section FindBoundsFacts.
Import Foundation.

Variable qr_solve_cast : list (list float) -> list float -> list Z.















End FindBoundsFacts.


(** ** What trimming keeps *)

Section ErosionFacts.
Import Foundation Construction.

Variable neighbours : Foundation.t -> Site -> list Site.

Lemma erodes_refl (F : t) : erodes F F.
Proof.
  unfold erodes. do 7 (split; [reflexivity|]).
  intros j Hj. split; [exact Hj|left; reflexivity].
Qed.

Lemma erodes_trans (F1 F2 F3 : t) : erodes F1 F2 -> erodes F2 F3 -> erodes F1 F3.
Proof.
  intros (Ha & Hb & Hc & Hd & He & Hf & Hg & Hv)
         (Ha' & Hb' & Hc' & Hd' & He' & Hf' & Hg' & Hv').
  unfold erodes. do 7 (split; [congruence|]).
  intros j Hj. destruct (Hv' j Hj) as [Hj2 Hcnt].
  destruct (Hv j Hj2) as [Hj1 Hcnt2]. split; [exact Hj1|].
  rewrite Ha in Hcnt. destruct Hcnt as [Heq|Hge]; [|right; exact Hge].
  rewrite Heq. exact Hcnt2.
Qed.

Lemma valid_after_invalidate (v : list bool) (i : nat) :
  default false (<[i := false]> v !! i) = false.
Proof.
  destruct (decide (i < length v)) as [Hlt|Hge].
  - rewrite list_lookup_insert_eq by exact Hlt. reflexivity.
  - rewrite list_insert_ge by lia.
    rewrite (proj2 (lookup_ge_None _ _)) by lia. reflexivity.
Qed.

(** The decrement of a valid neighbour that stays at or above the
    threshold. *)
Lemma erodes_decrement (F : t) (n : Site) (c : Z) :
  (get_neighbor_count (set_neighbor_count F n c) n
   <? Lattice.min_neighbours (lattice F))%Z = false ->
  erodes F (set_neighbor_count F n c).
Proof.
  intros Hge. apply Z.ltb_ge in Hge.
  unfold erodes. simpl. rewrite length_insert.
  do 7 (split; [reflexivity|]).
  intros j Hj. split; [exact Hj|].
  destruct (decide (j = idx n)) as [->|Hne].
  - right. exact Hge.
  - left. rewrite list_lookup_insert_ne by congruence. reflexivity.
Qed.

(** The decrement of a neighbour followed by its invalidation. *)
Lemma erodes_invalidate (F : t) (n : Site) (c : Z) :
  erodes F (set_valid (set_neighbor_count F n c) n false).
Proof.
  unfold erodes. simpl. rewrite !length_insert.
  do 7 (split; [reflexivity|]).
  intros j Hj. destruct (decide (j = idx n)) as [->|Hne].
  - rewrite valid_after_invalidate in Hj. discriminate.
  - rewrite list_lookup_insert_ne in Hj by congruence.
    split; [exact Hj|]. left.
    rewrite list_lookup_insert_ne by congruence. reflexivity.
Qed.

(** Clearing the count of an invalid site. *)
Lemma erodes_clear (F : t) (s : Site) :
  site_is_valid F s = false -> erodes F (set_neighbor_count F s 0).
Proof.
  intros Hs. unfold erodes. simpl. rewrite length_insert.
  do 7 (split; [reflexivity|]).
  intros j Hj. split; [exact Hj|].
  destruct (decide (j = idx s)) as [->|Hne].
  - unfold site_is_valid in Hs. congruence.
  - left. rewrite list_lookup_insert_ne by congruence. reflexivity.
Qed.

Lemma site_invalid_after_invalidate (F : t) (n : Site) :
  site_is_valid (set_valid F n false) n = false.
Proof. unfold site_is_valid. simpl. apply valid_after_invalidate. Qed.

(** The ways one callback can end, with the test that decided. *)
Lemma visit_neighbor_cases (recurse : t -> Site -> option t) (F F2 : t) (n : Site) :
  visit_neighbor recurse (Some F) n = Some F2 ->
  F2 = F
  \/ (let F1 := set_neighbor_count F n (get_neighbor_count F n - 1) in
      (F2 = F1
       /\ (get_neighbor_count F1 n <? Lattice.min_neighbours (lattice F))%Z = false)
      \/ recurse (set_valid F1 n false) n = Some F2).
Proof.
  unfold visit_neighbor. destruct (site_is_valid F n); simpl.
  - destruct (_ <? _)%Z eqn:E; intros H; right; [right; exact H|left].
    split; [congruence|reflexivity].
  - intros H. left. congruence.
Qed.

Lemma visit_neighbor_erodes (recurse : t -> Site -> option t) :
  (forall F s F', site_is_valid F s = false -> recurse F s = Some F' ->
                  erodes F F') ->
  forall (l : list Site) (F F' : t),
    fold_left (visit_neighbor recurse) l (Some F) = Some F' -> erodes F F'.
Proof.
  intros Hrec l. induction l as [|n l IH]; intros F F' Hfold.
  - injection Hfold as <-. apply erodes_refl.
  - change (fold_left (visit_neighbor recurse) l
              (visit_neighbor recurse (Some F) n) = Some F') in Hfold.
    destruct (visit_neighbor recurse (Some F) n) as [F2|] eqn:Hstep;
      [|rewrite visit_neighbor_None in Hfold; discriminate].
    apply (erodes_trans _ F2); [|apply IH; exact Hfold].
    destruct (visit_neighbor_cases _ _ _ _ Hstep) as [->|[[-> Hge]|Hr]].
    + apply erodes_refl.
    + apply erodes_decrement. exact Hge.
    + eapply erodes_trans; [apply erodes_invalidate|].
      eapply Hrec; [|exact Hr]. apply site_invalid_after_invalidate.
Qed.

Lemma clear_neighbors_erodes (fuel : nat) :
  forall (F : t) (s : Site) (F' : t),
    site_is_valid F s = false ->
    clear_neighbors neighbours fuel F s = Some F' -> erodes F F'.
Proof.
  induction fuel as [|fuel IH]; intros F s F' Hs H; [discriminate|].
  simpl in H. destruct (get_neighbor_count F s =? 0)%Z.
  - injection H as <-. apply erodes_refl.
  - destruct (fold_left _ _ _) as [F1|] eqn:Hfold; [|discriminate].
    injection H as <-.
    pose proof (visit_neighbor_erodes _ IH _ _ _ Hfold) as H1.
    apply (erodes_trans _ F1); [exact H1|].
    apply erodes_clear.
    destruct (site_is_valid F1 s) eqn:E; [|reflexivity].
    destruct H1 as (_ & _ & _ & _ & _ & _ & _ & Hv).
    destruct (Hv (idx s) E) as [Hv1 _].
    unfold site_is_valid in Hs. congruence.
Qed.

Lemma trim_sites_erodes (fuel : nat) (l : list nat) :
  forall F F', fold_left (trim_site neighbours fuel) l (Some F) = Some F' ->
               erodes F F'.
Proof.
  induction l as [|k l IH]; intros F F' H.
  - injection H as <-. apply erodes_refl.
  - simpl in H. destruct (site_is_valid F (site_at F k)) eqn:Hv; simpl in H.
    + apply IH. exact H.
    + destruct (clear_neighbors neighbours fuel F (site_at F k)) as [F1|] eqn:Hc;
        [|rewrite trim_site_None in H; discriminate].
      apply (erodes_trans _ F1); [|apply IH; exact H].
      eapply clear_neighbors_erodes; [exact Hv|exact Hc].
Qed.

(** X1: after [trim_edges] every invalid site (of the [num_sites] sites
    the pass visits) has the neighbour count 0, for every Foundation and
    every neighbour walk. *)
Theorem trim_edges_clears_invalid (F : Foundation.t) :
  exists F', trim_edges neighbours F = Some F'
    /\ forall j, j < num_sites F ->
         default false (is_valid F' !! j) = false ->
         default 0%Z (neighbour_count F' !! j) = 0%Z.
Proof.
  destruct (trim_edges_total neighbours F) as [F' H]. exists F'.
  split; [exact H|]. intros j Hj Hinv.
  destruct (trim_sites_uncleared neighbours _ _ _ _ H) as [_ Hu].
  destruct (Z.eq_dec (default 0%Z (neighbour_count F' !! j)) 0%Z) as [E|E];
    [exact E|].
  exfalso. destruct (Hu j (conj Hinv E)) as [_ Hnin].
  apply Hnin. apply in_seq. lia.
Qed.

(** X2: [trim_edges] never makes an invalid site valid, and it leaves the
    lattice, the block size, the number of sites and the lengths of
    [is_valid] and [neighbour_count] as they were. *)
Theorem trim_edges_only_invalidates (F : Foundation.t) :
  exists F', trim_edges neighbours F = Some F'
    /\ (forall j, is_valid F' !! j = Some true -> is_valid F !! j = Some true)
    /\ lattice F' = lattice F /\ size F' = size F /\ size_n F' = size_n F
    /\ num_sites F' = num_sites F
    /\ length (is_valid F') = length (is_valid F)
    /\ length (neighbour_count F') = length (neighbour_count F).
Proof.
  destruct (trim_edges_total neighbours F) as [F' H]. exists F'.
  split; [exact H|].
  destruct (trim_sites_erodes _ _ _ _ H)
    as (Ha & Hb & Hc & Hd & _ & Hf & Hg & Hv).
  repeat split; try assumption.
  intros j Hj. destruct (Hv j) as [Hj' _]; [rewrite Hj; reflexivity|].
  destruct (is_valid F !! j) as [[|]|]; simpl in Hj'; congruence.
Qed.

(** X3: a site that is still valid after [trim_edges] has the neighbour
    count it had before, or a count of at least the lattice's
    [min_neighbours]: no site survives a decrement that takes it below the
    threshold. *)
Theorem trim_edges_survivors (F : Foundation.t) :
  exists F', trim_edges neighbours F = Some F'
    /\ forall j, is_valid F' !! j = Some true ->
         default 0%Z (neighbour_count F' !! j)
         = default 0%Z (neighbour_count F !! j)
         \/ (Lattice.min_neighbours (lattice F)
             <= default 0%Z (neighbour_count F' !! j))%Z.
Proof.
  destruct (trim_edges_total neighbours F) as [F' H]. exists F'.
  split; [exact H|].
  destruct (trim_sites_erodes _ _ _ _ H) as (_ & _ & _ & _ & _ & _ & _ & Hv).
  intros j Hj. destruct (Hv j) as [_ Hc]; [rewrite Hj; reflexivity|].
  exact Hc.
Qed.

(** X4: erosion starts only from invalid sites: a Foundation all of whose
    sites are valid is returned unchanged, whatever its neighbour counts
    and the threshold. *)
Theorem trim_edges_all_valid (F : Foundation.t) :
  (forall j, j < num_sites F -> is_valid F !! j = Some true) ->
  trim_edges neighbours F = Some F.
Proof.
  intros Hall. unfold trim_edges. apply trim_sites_fixed.
  intros j Hj [Hinv _]. apply in_seq in Hj.
  rewrite Hall in Hinv by lia. discriminate.
Qed.

End ErosionFacts.

(** The chain of five valid sites with the threshold 3, which no site
    meets, is left as it is. *)
Lemma trim_edges_all_valid_witness :
  (forall j, j < Foundation.num_sites (Fixtures.chain 3 [true; true; true; true; true]) ->
     Foundation.is_valid (Fixtures.chain 3 [true; true; true; true; true]) !! j
     = Some true)
  /\ Foundation.trim_edges Foundation.for_each_neighbour
       (Fixtures.chain 3 [true; true; true; true; true])
     = Some (Fixtures.chain 3 [true; true; true; true; true]).
Proof.
  assert (H : forall j,
             j < Foundation.num_sites (Fixtures.chain 3 [true; true; true; true; true]) ->
             Foundation.is_valid (Fixtures.chain 3 [true; true; true; true; true]) !! j
             = Some true).
  { intros j Hj. simpl in Hj.
    do 5 (destruct j as [|j]; [reflexivity|]). lia. }
  split; [exact H|].
  exact (trim_edges_all_valid Foundation.for_each_neighbour _ H).
Defined.

(** ** More on [init_neighbor_count] *)

Section InitNeighborCountBounds.
Import Foundation.

Lemma init_neighbor_count_length (F : t) :
  length (neighbour_count (init_neighbor_count F)) = num_sites F.
Proof.
  unfold init_neighbor_count, sites. simpl.
  rewrite (init_neighbor_count_loop F (num_sites F) (num_sites F)) by lia.
  rewrite Nat.sub_diag, app_nil_r, length_map, length_seq. reflexivity.
Qed.

(** X5: [init_neighbor_count] writes one count per site and touches
    nothing else; where the hopping list of the site's sublattice has at
    most 32767 entries, the count lies between 0 and the length of that
    list, and it is the full length exactly when no hopping of the site
    leaves the block. *)
Theorem init_neighbor_count_bounds (F : Foundation.t) :
  length (neighbour_count (init_neighbor_count F)) = num_sites F
  /\ is_valid (init_neighbor_count F) = is_valid F
  /\ forall k c,
       neighbour_count (init_neighbor_count F) !! k = Some c ->
       (Z.of_nat (length (site_hoppings F (site_at F k))) <= Int.int16_max)%Z ->
       (0 <= c <= Z.of_nat (length (site_hoppings F (site_at F k))))%Z
       /\ (c = Z.of_nat (length (site_hoppings F (site_at F k)))
           <-> edge_hoppings F (site_at F k) = []).
Proof.
  split; [apply init_neighbor_count_length|]. split; [reflexivity|].
  intros k c Hc Hlen.
  assert (Hk : k < num_sites F).
  { apply lookup_lt_Some in Hc. rewrite init_neighbor_count_length in Hc.
    exact Hc. }
  rewrite init_neighbor_count_lookup, count_neighbors_eq in Hc by exact Hk.
  injection Hc as <-.
  assert (Hle : length (edge_hoppings F (site_at F k))
                <= length (site_hoppings F (site_at F k)))
    by apply List.filter_length_le.
  rewrite int16_t_small by lia.
  split; [lia|]. split.
  - intros H. destruct (edge_hoppings F (site_at F k)); [reflexivity|].
    simpl length in H. lia.
  - intros ->. simpl. lia.
Qed.

End InitNeighborCountBounds.

(** ** More on [find_bounds] *)

Section FindBoundsMore.
Import Foundation.

Variable qr_solve_cast : list (list float) -> list float -> list Z.

Lemma Index3D_eq (a b : Index3D) :
  i0 a = i0 b -> i1 a = i1 b -> i2 a = i2 b -> a = b.
Proof. destruct a, b. simpl. intros -> -> ->. reflexivity. Qed.

Lemma select_lt_min (a b : Index3D) :
  Idx.select_lt a b
  = Index3 (Z.min (i0 a) (i0 b)) (Z.min (i1 a) (i1 b)) (Z.min (i2 a) (i2 b)).
Proof.
  unfold Idx.select_lt. apply Index3D_eq; simpl;
    match goal with |- (if (?x <? ?y)%Z then _ else _) = _ =>
      destruct (Z.ltb_spec x y) end; lia.
Qed.

Lemma select_gt_max (a b : Index3D) :
  Idx.select_gt a b
  = Index3 (Z.max (i0 a) (i0 b)) (Z.max (i1 a) (i1 b)) (Z.max (i2 a) (i2 b)).
Proof.
  unfold Idx.select_gt. apply Index3D_eq; simpl;
    match goal with |- (if (?x >? ?y)%Z then _ else _) = _ =>
      rewrite Z.gtb_ltb; destruct (Z.ltb_spec y x) end; lia.
Qed.

(** Two steps of the vertex loop commute. *)
Lemma vertex_step_comm (L : Lattice.t) (b : Index3D * Index3D) (p q : Cartesian) :
  let step := fun (b : Index3D * Index3D) (point : Cartesian) =>
    let v := lattice_coordinates qr_solve_cast L point in
    (Idx.select_lt v (fst b), Idx.select_gt v (snd b)) in
  step (step b p) q = step (step b q) p.
Proof.
  cbv zeta. simpl. rewrite !select_lt_min, !select_gt_max. simpl.
  f_equal; apply Index3D_eq; simpl; lia.
Qed.

Lemma fold_left_comm_perm {A B : Type} (f : A -> B -> A) :
  (forall a x y, f (f a x) y = f (f a y) x) ->
  forall l l', Permutation l l' -> forall a, fold_left f l a = fold_left f l' a.
Proof.
  intros Hf l l' Hp. induction Hp as [|x l l' Hp IH|x y l|l l' l'' H1 IH1 H2 IH2];
    intros a; simpl.
  - reflexivity.
  - apply IH.
  - rewrite Hf. reflexivity.
  - rewrite IH1. apply IH2.
Qed.

(** X6: the bounds do not depend on the order in which the shape lists
    its vertices. *)
Theorem find_bounds_vertex_order (L : Lattice.t) (s1 s2 : Shape) :
  Permutation (vertices s1) (vertices s2) ->
  find_bounds qr_solve_cast L s1 = find_bounds qr_solve_cast L s2.
Proof.
  intros Hp. unfold find_bounds, vertex_bounds.
  rewrite (fold_left_comm_perm _ (vertex_step_comm L) _ _ Hp). reflexivity.
Qed.



End FindBoundsMore.

(** The triangle with its corners listed in another order. *)
Lemma find_bounds_vertex_order_witness :
  Permutation (vertices Fixtures2.triangle) (vertices Fixtures2.triangle_reordered)
  /\ Foundation.find_bounds Fixtures2.identity_solve Fixtures2.square_lattice
       Fixtures2.triangle
     = Foundation.find_bounds Fixtures2.identity_solve Fixtures2.square_lattice
         Fixtures2.triangle_reordered.
Proof.
  assert (H : Permutation (vertices Fixtures2.triangle)
                (vertices Fixtures2.triangle_reordered)).
  { simpl. apply Permutation_sym.
    apply (Permutation_cons_app [Fixtures2.corner_a; Fixtures2.corner_b] []).
    reflexivity. }
  split; [exact H|].
  exact (find_bounds_vertex_order Fixtures2.identity_solve
           Fixtures2.square_lattice _ _ H).
Defined.


(** ** The constructors *)

Section ConstructionFacts.
Import Foundation Construction.

Variables (fadd fmul fdiv : float -> float -> float).
Variable fneg : float -> float.
Variable of_int : Z -> float.

(** A loop that writes one entry per site writes them all. *)
Lemma fill_loop {A : Type} (F : t) (h : Site -> A) (d : A) (n k : nat) :
  k <= n ->
  fold_left (fun acc site => <[idx site := h site]> acc)
    (map (site_at F) (seq 0 k)) (replicate n d)
  = map (fun i => h (site_at F i)) (seq 0 k) ++ replicate (n - k) d.
Proof.
  induction k as [|k IH]; intros Hk.
  - simpl. rewrite Nat.sub_0_r. reflexivity.
  - rewrite seq_S, !map_app, fold_left_app, IH by lia. simpl.
    replace (n - k) with (S (n - S k)) by lia.
    rewrite insert_app_r_alt by (rewrite length_map, length_seq; lia).
    rewrite length_map, length_seq, Nat.sub_diag. simpl.
    rewrite <- app_assoc. reflexivity.
Qed.

Lemma init_positions_eq (F : t) (origin : Cartesian) :
  init_positions fadd fmul of_int F origin
  = map (fun i => calculate_position fadd fmul of_int F (site_at F i) origin)
      (seq 0 (num_sites F)).
Proof.
  unfold init_positions, sites.
  rewrite (fill_loop F _ _ (num_sites F) (num_sites F)) by lia.
  rewrite Nat.sub_diag, app_nil_r. reflexivity.
Qed.

Lemma init_positions_length (F : t) (origin : Cartesian) :
  length (init_positions fadd fmul of_int F origin) = num_sites F.
Proof. rewrite init_positions_eq, length_map, length_seq. reflexivity. Qed.

Lemma num_valid_replicate_true (n : nat) : num_valid (replicate n true) = n.
Proof.
  induction n as [|n IH]; [reflexivity|].
  simpl replicate. rewrite num_valid_cons, IH. reflexivity.
Qed.

Lemma compact_index_all_valid (n i : nat) :
  i < n -> compact_index (replicate n true) i = Z.of_nat i.
Proof.
  intros Hi. unfold compact_index.
  rewrite lookup_replicate_2 by exact Hi. simpl.
  rewrite take_replicate, Nat.min_l by lia.
  rewrite num_valid_replicate_true. reflexivity.
Qed.

Lemma wrap32_mod (z : Z) : (Int.wrap 32 z mod 2 ^ 32 = z mod 2 ^ 32)%Z.
Proof.
  unfold Int.wrap. change (32 - 1)%Z with 31%Z.
  rewrite Zminus_mod, Z.mod_mod by lia.
  rewrite <- Zminus_mod. f_equal. lia.
Qed.

Lemma wrap32_congr (x y : Z) :
  (x mod 2 ^ 32 = y mod 2 ^ 32)%Z -> Int.wrap 32 x = Int.wrap 32 y.
Proof.
  intros H. unfold Int.wrap. f_equal.
  rewrite (Zplus_mod x), (Zplus_mod y), H. reflexivity.
Qed.

Lemma wrap32_mul_l (a b : Z) : Int.wrap 32 (Int.wrap 32 a * b) = Int.wrap 32 (a * b).
Proof.
  apply wrap32_congr.
  rewrite (Zmult_mod (Int.wrap 32 a)), wrap32_mod, <- Zmult_mod. reflexivity.
Qed.

Lemma wrap32_mul_r (a b : Z) : Int.wrap 32 (a * Int.wrap 32 b) = Int.wrap 32 (a * b).
Proof. rewrite (Z.mul_comm a), wrap32_mul_l, Z.mul_comm. reflexivity. Qed.

Lemma wrap32_add_l (a b : Z) : Int.wrap 32 (Int.wrap 32 a + b) = Int.wrap 32 (a + b).
Proof.
  apply wrap32_congr.
  rewrite (Zplus_mod (Int.wrap 32 a)), wrap32_mod, <- Zplus_mod. reflexivity.
Qed.

Lemma wrap32_small (z : Z) :
  (Int.int_min <= z <= Int.int_max)%Z -> Int.wrap 32 z = z.
Proof.
  unfold Int.int_min, Int.int_max, Int.wrap. intros H.
  change (32 - 1)%Z with 31%Z. rewrite Z.mod_small; lia.
Qed.

(** [num_sites] is the number of cells times the number of sublattices,
    reduced to 32 bits once. *)
Lemma site_count_wrap (dims : Index3D) (L : Lattice.t) :
  site_count dims (sublattice_count L)
  = Int.wrap 32 (i0 dims * i1 dims * i2 dims
                 * Z.of_nat (length (Lattice.sublattices L))).
Proof.
  unfold site_count, prod, sublattice_count, int32.
  rewrite wrap32_mul_r, wrap32_mul_l.
  rewrite <- (Z.mul_assoc (Int.wrap 32 _)), wrap32_mul_l, Z.mul_assoc.
  reflexivity.
Qed.

Lemma shape_size_wrap (bounds : Index3D * Index3D) (k : nat) :
  k < 3 ->
  Idx.get (shape_size bounds) k
  = Int.wrap 32 (Idx.get (snd bounds) k - Idx.get (fst bounds) k + 1).
Proof.
  intros Hk. destruct bounds as [lo hi]. unfold shape_size, int32.
  destruct k as [|[|[|k]]]; [simpl; apply wrap32_add_l..|lia].
Qed.

(** X8: the block constructor computes [num_sites] as the number of cells
    times the number of sublattices, reduced to 32 bits: that product
    itself where it lies between 0 and [INT_MAX].  Where the reduced value
    is negative, [resize] fails and the constructor does not complete.
    Otherwise the constructor makes every site of the block valid and
    gives [positions], [is_valid] and [neighbour_count] one entry per
    site, the position of site [k] being [calculate_position] of that
    site; [finalize] on the result then returns the number of sites and
    numbers the sites by their raw index. *)
Theorem from_primitive_block (L : Lattice.t) (primitive : Primitive) :
  let dims := primitive_size primitive in
  let n := site_count dims (sublattice_count L) in
  let total :=
    (i0 dims * i1 dims * i2 dims
     * Z.of_nat (length (Lattice.sublattices L)))%Z in
  n = Int.wrap 32 total
  /\ ((0 <= total <= Int.int_max)%Z -> n = total)
  /\ ((n < 0)%Z ->
      from_primitive fadd fmul fdiv fneg of_int L primitive = Throws bad_alloc)
  /\ ((0 <= n)%Z ->
      exists B,
        from_primitive fadd fmul fdiv fneg of_int L primitive = Returns B
        /\ let F := foundation B in
           Z.of_nat (num_sites F) = n
           /\ size F = dims
           /\ is_valid F = replicate (num_sites F) true
           /\ length (neighbour_count F) = num_sites F
           /\ length (positions B) = num_sites F
           /\ (exists origin, forall k, k < num_sites F ->
                  positions B !! k
                  = Some (calculate_position fadd fmul of_int F (site_at F k)
                            origin))
           /\ snd (finalize F) = Z.of_nat (num_sites F)
           /\ (forall i, i < num_sites F ->
                 hamiltonian_indices (fst (finalize F)) !! i
                 = Some (Z.of_nat i))).
Proof.
  cbv zeta. split; [apply site_count_wrap|].
  split.
  { intros Hr. rewrite site_count_wrap. apply wrap32_small.
    unfold Int.int_min. lia. }
  unfold from_primitive. cbv zeta.
  remember (site_count (primitive_size primitive) (sublattice_count L))
    as z eqn:Ez.
  clear Ez. split.
  { intros Hneg. destruct (Z.ltb_spec z 0); [reflexivity|lia]. }
  intros Hnn. destruct (Z.ltb_spec z 0) as [Hlt|_]; [lia|].
  remember (Z.to_nat z) as n eqn:En.
  eexists. split; [reflexivity|]. cbn [foundation positions].
  set (F0 := mk L (primitive_size primitive) (sublattice_count L) n [] [] []).
  set (F := init_neighbor_count (with_is_valid F0 (replicate n true))).
  assert (Hn : num_sites F = n) by reflexivity.
  assert (Hv : is_valid F = replicate n true) by reflexivity.
  rewrite Hn, Hv.
  split; [rewrite En; apply Z2Nat.id; exact Hnn|].
  split; [reflexivity|]. split; [reflexivity|].
  split; [apply (init_neighbor_count_length (with_is_valid F0 (replicate n true)))|].
  rewrite init_positions_eq.
  split; [rewrite length_map, length_seq; reflexivity|].
  split.
  - eexists. intros k Hk.
    change (map ?g ?l) with (g <$> l).
    rewrite list_lookup_fmap, lookup_seq_lt by exact Hk. reflexivity.
  - destruct (finalize_indices F) as [Hidx Hcount].
    rewrite Hn, Hv in Hidx, Hcount. split.
    + rewrite Hcount, take_ge by (rewrite length_replicate; lia).
      rewrite num_valid_replicate_true. reflexivity.
    + intros i Hi. rewrite Hidx.
      change (map ?g ?l) with (g <$> l).
      rewrite list_lookup_fmap, lookup_seq_lt by exact Hi. simpl.
      rewrite compact_index_all_valid by exact Hi. reflexivity.
Qed.

Variable neighbours : Foundation.t -> Site -> list Site.
Variable qr_solve_cast : list (list float) -> list float -> list Z.

Lemma find_bounds_Returns (L : Lattice.t) (shape : Shape) :
  exists bounds, find_bounds qr_solve_cast L shape = Returns bounds.
Proof.
  unfold find_bounds. destruct (vertex_bounds qr_solve_cast L shape).
  eexists. reflexivity.
Qed.

(** The last three steps of the shape constructor, on any Foundation and
    any validity array: the trimming ends, and what it leaves. *)
Lemma trimmed_shape (F0 : t) (valid : list bool) :
  exists F',
    trim_edges neighbours (init_neighbor_count (with_is_valid F0 valid))
    = Some F'
    /\ num_sites F' = num_sites F0
    /\ size F' = size F0
    /\ lattice F' = lattice F0
    /\ length (neighbour_count F') = num_sites F0
    /\ length (is_valid F') = length valid
    /\ (forall j, is_valid F' !! j = Some true -> valid !! j = Some true)
    /\ (forall j, j < num_sites F0 ->
          default false (is_valid F' !! j) = false ->
          default 0%Z (neighbour_count F' !! j) = 0%Z).
Proof.
  set (F1 := init_neighbor_count (with_is_valid F0 valid)).
  destruct (trim_edges_total neighbours F1) as [F' H].
  exists F'. split; [exact H|].
  destruct (trim_sites_erodes neighbours _ _ _ _ H)
    as (Ha & Hb & _ & Hd & _ & Hf & Hg & Hv).
  destruct (trim_sites_uncleared neighbours _ _ _ _ H) as [_ Hu].
  split; [rewrite Hd; reflexivity|].
  split; [rewrite Hb; reflexivity|].
  split; [rewrite Ha; reflexivity|].
  split; [rewrite Hg; apply (init_neighbor_count_length (with_is_valid F0 valid))|].
  split; [rewrite Hf; reflexivity|].
  split.
  - intros j Hj. destruct (Hv j) as [Hj1 _]; [rewrite Hj; reflexivity|].
    change (is_valid F1) with valid in Hj1.
    destruct (valid !! j) as [[|]|]; simpl in Hj1; congruence.
  - intros j Hj Hinv.
    destruct (Z.eq_dec (default 0%Z (neighbour_count F' !! j)) 0%Z) as [E|E];
      [exact E|].
    exfalso. destruct (Hu j (conj Hinv E)) as [_ Hnin].
    apply Hnin. apply in_seq. change (num_sites F1) with (num_sites F0). lia.
Qed.

(** The shape constructor after [find_bounds] has returned. *)
Lemma from_shape_bounds (L : Lattice.t) (shape : Shape)
    (bounds : Index3D * Index3D) (z : Z) :
  find_bounds qr_solve_cast L shape = Returns bounds ->
  site_count (shape_size bounds) (sublattice_count L) = z ->
  from_shape fadd fmul of_int neighbours qr_solve_cast L shape
  = if (z <? 0)%Z then Throws bad_alloc
    else
      let n := Z.to_nat z in
      let F := mk L (shape_size bounds) (sublattice_count L) n [] [] [] in
      let pos :=
        init_positions fadd fmul of_int F
          (add_lattice_vectors fadd fmul of_int L (Idx.get (fst bounds))
             (shape_offset shape)) in
      Returns
        (match
           trim_edges neighbours
             (init_neighbor_count (with_is_valid F (contains shape pos)))
         with
         | Some F => Some (mkBuilt F pos)
         | None => None
         end).
Proof.
  intros Hb <-. unfold from_shape. rewrite Hb. reflexivity.
Qed.

(** X9: the shape constructor takes the bounds that [find_bounds]
    returns (it throws nothing), sizes the block as upper minus lower plus
    one in every component, reduced to 32 bits, and computes [num_sites]
    from that size as the block constructor does.  Where [num_sites] is
    negative, [resize] fails and the constructor does not complete.
    Otherwise it yields a Foundation (the trimming ends) of that size and
    that many sites, in which a site is valid only if the shape's
    [contains] accepted its position, every invalid site has the
    neighbour count 0, and [positions] and [neighbour_count] have one
    entry per site. *)
Theorem from_shape_inside (L : Lattice.t) (shape : Shape) :
  exists bounds,
    find_bounds qr_solve_cast L shape = Returns bounds
    /\ let n := site_count (shape_size bounds) (sublattice_count L) in
       (forall k, k < 3 ->
          Idx.get (shape_size bounds) k
          = Int.wrap 32 (Idx.get (snd bounds) k - Idx.get (fst bounds) k + 1))
       /\ ((n < 0)%Z ->
           from_shape fadd fmul of_int neighbours qr_solve_cast L shape
           = Throws bad_alloc)
       /\ ((0 <= n)%Z ->
           exists B,
             from_shape fadd fmul of_int neighbours qr_solve_cast L shape
             = Returns (Some B)
             /\ Z.of_nat (num_sites (foundation B)) = n
             /\ size (foundation B) = shape_size bounds
             /\ lattice (foundation B) = L
             /\ length (positions B) = num_sites (foundation B)
             /\ length (neighbour_count (foundation B))
                = num_sites (foundation B)
             /\ length (is_valid (foundation B))
                = length (contains shape (positions B))
             /\ (forall j, is_valid (foundation B) !! j = Some true ->
                   contains shape (positions B) !! j = Some true)
             /\ (forall j, j < num_sites (foundation B) ->
                   default false (is_valid (foundation B) !! j) = false ->
                   default 0%Z (neighbour_count (foundation B) !! j) = 0%Z)).
Proof.
  destruct (find_bounds_Returns L shape) as [bounds Hb].
  exists bounds. split; [exact Hb|]. cbv zeta.
  split; [intros k Hk; apply shape_size_wrap; exact Hk|].
  remember (site_count (shape_size bounds) (sublattice_count L)) as z eqn:Ez.
  rewrite (from_shape_bounds L shape bounds z Hb (eq_sym Ez)).
  clear Ez. cbv zeta. split.
  { intros Hneg. destruct (Z.ltb_spec z 0); [reflexivity|lia]. }
  intros Hnn. destruct (Z.ltb_spec z 0) as [Hlt|_]; [lia|].
  remember (Z.to_nat z) as n eqn:En.
  set (F0 := mk L (shape_size bounds) (sublattice_count L) n [] [] []).
  set (origin := add_lattice_vectors fadd fmul of_int L _ _).
  set (pos := init_positions fadd fmul of_int F0 origin).
  assert (Hpos : length pos = n) by apply (init_positions_length F0 origin).
  destruct (trimmed_shape F0 (contains shape pos))
    as (F' & H & Hnum & Hsize & Hlat & Hcount & Hvalid & Hin & Hout).
  rewrite H. exists (mkBuilt F' pos). split; [reflexivity|].
  cbn [foundation positions].
  change (num_sites F0) with n in Hnum, Hcount, Hout.
  rewrite Hnum.
  split; [rewrite En; apply Z2Nat.id; exact Hnn|].
  split; [exact Hsize|]. split; [exact Hlat|]. split; [exact Hpos|].
  split; [exact Hcount|]. split; [exact Hvalid|].
  split; [exact Hin|exact Hout].
Qed.

End ConstructionFacts.

(** The square lattice in a block of two by two cells: four sites. *)
Lemma from_primitive_block_witness :
  Construction.site_count (Construction.primitive_size Fixtures2.block_2x2)
    (Construction.sublattice_count Fixtures2.square_lattice) = 4%Z
  /\ exists B,
       Construction.from_primitive Fixtures2.fadd32 Fixtures2.fmul32
         Fixtures2.fdiv32 Fixtures2.fneg32 Fixtures2.of_int32
         Fixtures2.square_lattice Fixtures2.block_2x2
       = Returns B
       /\ Foundation.num_sites (Construction.foundation B) = 4
       /\ snd (Foundation.finalize (Construction.foundation B)) = 4%Z.
Proof.
  assert (E : Construction.site_count
                (Construction.primitive_size Fixtures2.block_2x2)
                (Construction.sublattice_count Fixtures2.square_lattice) = 4%Z)
    by (vm_compute; reflexivity).
  split; [exact E|].
  pose proof (from_primitive_block Fixtures2.fadd32 Fixtures2.fmul32
                Fixtures2.fdiv32 Fixtures2.fneg32 Fixtures2.of_int32
                Fixtures2.square_lattice Fixtures2.block_2x2) as H.
  cbv zeta in H. destruct H as (_ & _ & _ & H).
  destruct H as (B & HB & Hn & _ & _ & _ & _ & _ & Hfin & _);
    [rewrite E; lia|].
  exists B. split; [exact HB|]. rewrite E in Hn.
  split; [lia|]. rewrite Hfin, Hn. reflexivity.
Defined.

(** Two large blocks of the square lattice.  65536 by 65536 cells are
    2^32 sites, which [int] holds as 0: the constructor returns a
    Foundation without sites.  65536 by 32768 cells are 2^31 sites, which
    [int] holds as [INT_MIN]: the constructor does not complete. *)
Example from_primitive_large_blocks :
  (exists B,
     Construction.from_primitive Fixtures2.fadd32 Fixtures2.fmul32
       Fixtures2.fdiv32 Fixtures2.fneg32 Fixtures2.of_int32
       Fixtures2.square_lattice
       (Construction.mkPrimitive (Index3 65536 65536 1))
     = Returns B
     /\ Foundation.num_sites (Construction.foundation B) = 0)
  /\ Construction.from_primitive Fixtures2.fadd32 Fixtures2.fmul32
       Fixtures2.fdiv32 Fixtures2.fneg32 Fixtures2.of_int32
       Fixtures2.square_lattice
       (Construction.mkPrimitive (Index3 65536 32768 1))
     = Throws Construction.bad_alloc.
Proof.
  split.
  - eexists. split; [vm_compute; reflexivity|reflexivity].
  - vm_compute. reflexivity.
Qed.

(** The triangle on the square lattice: a box of six by five cells, all
    thirty sites inside the shape. *)
Lemma from_shape_inside_witness :
  match
    Construction.from_shape Fixtures2.fadd32 Fixtures2.fmul32
      Fixtures2.of_int32 Foundation.for_each_neighbour
      Fixtures2.identity_solve Fixtures2.square_lattice Fixtures2.triangle
  with
  | Returns (Some B) =>
      Foundation.num_sites (Construction.foundation B) = 30
      /\ Foundation.size (Construction.foundation B) = Index3 6 5 1
      /\ Foundation.is_valid (Construction.foundation B) = replicate 30 true
  | _ => False
  end
  /\ exists B,
       Construction.from_shape Fixtures2.fadd32 Fixtures2.fmul32
         Fixtures2.of_int32 Foundation.for_each_neighbour
         Fixtures2.identity_solve Fixtures2.square_lattice Fixtures2.triangle
       = Returns (Some B)
       /\ length (Construction.positions B)
          = Foundation.num_sites (Construction.foundation B).
Proof.
  split; [vm_compute; repeat split; reflexivity|].
  destruct (from_shape_inside Fixtures2.fadd32 Fixtures2.fmul32
              Fixtures2.of_int32 Foundation.for_each_neighbour
              Fixtures2.identity_solve Fixtures2.square_lattice
              Fixtures2.triangle)
    as (bounds & Hb & H).
  assert (E : bounds = (Index3 (-1) (-1) 0, Index3 4 3 0)).
  { vm_compute in Hb. congruence. }
  subst bounds. cbv zeta in H. destruct H as (_ & _ & H).
  destruct H as (B & HB & _ & _ & _ & Hlen & _); [vm_compute; discriminate|].
  exists B. split; [exact HB|exact Hlen].
Defined.

(** The wide shape on the square lattice: the bounds run from -2^30 - 1
    to 2^30 + 1 along x, the size 2^31 + 3 is held by [int] as
    -2^31 + 3, [num_sites] comes out negative and the constructor does not
    complete. *)
Example from_shape_wide :
  Foundation.find_bounds Fixtures2.identity_solve Fixtures2.square_lattice
    Fixtures2.wide
  = Returns (Index3 (- 2 ^ 30 - 1) (-1) 0, Index3 (2 ^ 30 + 1) 3 0)
  /\ Construction.shape_size
       (Index3 (- 2 ^ 30 - 1) (-1) 0, Index3 (2 ^ 30 + 1) 3 0)
     = Index3 (- 2 ^ 31 + 3) 5 1
  /\ Construction.from_shape Fixtures2.fadd32 Fixtures2.fmul32
       Fixtures2.of_int32 Foundation.for_each_neighbour
       Fixtures2.identity_solve Fixtures2.square_lattice Fixtures2.wide
     = Throws Construction.bad_alloc.
Proof. repeat split; vm_compute; reflexivity. Qed.

(** ** More on the modifier lists *)

Section ModifierListFacts.
Import Modifiers ModifierLists.

Lemma find_addresses {T : Type} (v : list (shared_ptr T)) (m : shared_ptr T) :
  find v m = true <-> In (address m) (addresses v).
Proof.
  rewrite find_spec. unfold addresses. rewrite in_map_iff.
  split; intros (x & H1 & H2); exists x; split; congruence || assumption.
Qed.

Lemma add_unique_addresses {T : Type} (v : list (shared_ptr T)) (m : shared_ptr T) :
  addresses (fst (add_unique v m))
  = if find v m then addresses v else addresses v ++ [address m].
Proof.
  unfold add_unique, addresses. destruct (find v m); simpl; [reflexivity|].
  rewrite map_app. reflexivity.
Qed.

Lemma add_unique_NoDup {T : Type} (v : list (shared_ptr T)) (m : shared_ptr T) :
  NoDup (addresses v) -> NoDup (addresses (fst (add_unique v m))).
Proof.
  intros Hnd. rewrite add_unique_addresses.
  destruct (find v m) eqn:E; [exact Hnd|].
  apply NoDup_app. split; [exact Hnd|]. split.
  - intros a Ha Hin. apply list_elem_of_In in Ha.
    apply list_elem_of_In in Hin. destruct Hin as [<-|[]].
    apply find_addresses in Ha. congruence.
  - apply NoDup_singleton.
Qed.

(** X10: when the addresses in a modifier list are pairwise distinct they
    still are after [add_unique]; the entries already there keep their
    places, at most one entry is added, the handle is in the list
    afterwards whatever the return value, and the return value says
    whether the list grew. *)
Theorem add_unique_keeps_distinct (T : Type) (v : list (shared_ptr T))
    (m : shared_ptr T) :
  (NoDup (addresses v) -> NoDup (addresses (fst (add_unique v m))))
  /\ (exists tail, fst (add_unique v m) = v ++ tail /\ length tail <= 1)
  /\ In (address m) (addresses (fst (add_unique v m)))
  /\ length (fst (add_unique v m))
     = length v + (if snd (add_unique v m) then 1 else 0).
Proof.
  split; [apply add_unique_NoDup|].
  unfold add_unique. destruct (find v m) eqn:E; simpl.
  - split; [exists []; rewrite app_nil_r; split; [reflexivity|simpl; lia]|].
    split; [apply find_addresses; exact E|lia].
  - split; [exists [m]; split; [reflexivity|simpl; lia]|].
    split.
    + unfold addresses. rewrite map_app. apply in_or_app. right. left. reflexivity.
    + rewrite length_app. simpl. lia.
Qed.

(** The state of a run of [add_unique] calls. *)
Lemma add_all_app {T : Type} (v : list (shared_ptr T)) (ms : list (shared_ptr T))
    (m : shared_ptr T) :
  add_all v (ms ++ [m])
  = (fst (add_unique (fst (add_all v ms)) m),
     snd (add_all v ms) ++ [snd (add_unique (fst (add_all v ms)) m)]).
Proof.
  unfold add_all. rewrite fold_left_app. simpl.
  destruct (add_unique _ m). reflexivity.
Qed.

(** X11: a run of [add_unique] calls on a cleared list leaves a list
    with pairwise distinct addresses that holds exactly the addresses
    passed in; the calls that returned true are as many as the list is
    long. *)
Theorem add_all_from_empty (T : Type) (ms : list (shared_ptr T)) :
  NoDup (addresses (fst (add_all [] ms)))
  /\ (forall a, In a (addresses (fst (add_all [] ms))) <-> In a (addresses ms))
  /\ length (List.filter (fun r => r) (snd (add_all [] ms)))
     = length (fst (add_all [] ms)).
Proof.
  induction ms as [|m ms IH] using rev_ind.
  - split; [apply NoDup_nil_2|]. split; [reflexivity|reflexivity].
  - destruct IH as (Hnd & Hin & Hlen).
    rewrite add_all_app. cbn [fst snd].
    split; [apply add_unique_NoDup; exact Hnd|]. split.
    + intros a. rewrite add_unique_addresses.
      unfold addresses at 3. rewrite map_app, in_app_iff. simpl.
      destruct (find (fst (add_all [] ms)) m) eqn:E.
      * rewrite Hin. split; [tauto|].
        intros [H|[<-|[]]]; [exact H|].
        apply Hin. apply find_addresses. exact E.
      * rewrite in_app_iff, Hin. simpl. reflexivity.
    + rewrite List.filter_app, length_app, Hlen.
      unfold add_unique. destruct (find (fst (add_all [] ms)) m); simpl.
      * lia.
      * rewrite length_app. simpl. lia.
Qed.

Variables OnsiteModifier HoppingModifier : Type.
Variable onsite_is_complex : OnsiteModifier -> bool.
Variable hopping_is_complex : HoppingModifier -> bool.

(** X12: [any_complex] is false on a cleared container; adding an
    on-site or hopping modifier turns it true exactly when the modifier
    was added and is complex, and never turns it false. *)
Theorem any_complex_add_unique
    (M : HamiltonianModifiers OnsiteModifier HoppingModifier)
    (mo : shared_ptr OnsiteModifier) (mh : shared_ptr HoppingModifier) :
  any_complex _ _ onsite_is_complex hopping_is_complex
    (clear_hamiltonian _ _ M) = false
  /\ any_complex _ _ onsite_is_complex hopping_is_complex
       (fst (add_unique_onsite M mo))
     = any_complex _ _ onsite_is_complex hopping_is_complex M
       || (snd (add_unique_onsite M mo) && onsite_is_complex (pointee mo))
  /\ any_complex _ _ onsite_is_complex hopping_is_complex
       (fst (add_unique_hopping M mh))
     = any_complex _ _ onsite_is_complex hopping_is_complex M
       || (snd (add_unique_hopping M mh) && hopping_is_complex (pointee mh)).
Proof.
  split; [reflexivity|].
  unfold any_complex, add_unique_onsite, add_unique_hopping, add_unique.
  split.
  - destruct (find (onsite M) mo); simpl.
    + rewrite orb_false_r. reflexivity.
    + rewrite existsb_app. simpl.
      destruct (existsb _ (onsite M)), (existsb _ (hopping M)),
        (onsite_is_complex (pointee mo)); reflexivity.
  - destruct (find (hopping M) mh); simpl.
    + rewrite orb_false_r. reflexivity.
    + rewrite existsb_app. simpl.
      destruct (existsb _ (onsite M)), (existsb _ (hopping M)),
        (hopping_is_complex (pointee mh)); reflexivity.
Qed.

End ModifierListFacts.

(** ** More on the dense views *)

Section URefFacts.
Import URef URefBuild.

Lemma get_type_inj (s1 s2 : scalar_t) : get_type s1 = get_type s2 -> s1 = s2.
Proof. destruct s1, s2; simpl; intros H; congruence. Qed.

Lemma uref_cast_Returns (D : Derived) (u : DenseURef) (m : Map) :
  uref_cast D u = Returns m -> type u = get_type (Scalar D) /\ m = make_map D u.
Proof.
  unfold uref_cast.
  destruct (ScalarType_eqb (type u) (get_type (Scalar D))) eqn:E; simpl;
    [|discriminate].
  intros H. split; [apply ScalarType_eqb_eq; exact E|congruence].
Qed.

(** X13: a view reads back under one scalar type at most: two
    [uref_cast]s of the same view that both return were asked for the
    same scalar type; and a view tagged [none] reads back under no type
    at all. *)
Theorem uref_cast_one_scalar (D1 D2 : Derived) (u : DenseURef) :
  (forall m1 m2, uref_cast D1 u = Returns m1 -> uref_cast D2 u = Returns m2 ->
     Scalar D1 = Scalar D2 /\ map_data m1 = map_data m2)
  /\ (type u = none -> exists what, uref_cast D1 u = Throws what).
Proof.
  split.
  - intros m1 m2 H1 H2.
    apply uref_cast_Returns in H1, H2. destruct H1 as [T1 ->], H2 as [T2 ->].
    split; [apply get_type_inj; congruence|].
    unfold make_map, Map_vector, Map_matrix.
    destruct (IsVectorAtCompileTime D1), (IsVectorAtCompileTime D2); reflexivity.
  - intros Hn. unfold uref_cast. rewrite Hn.
    destruct (Scalar D1); simpl; eexists; reflexivity.
Qed.

(** X14: a dense object wrapped in a [DenseURef] and read back with
    [uref_cast] under its own type comes back as a view of the same
    scalar type, data pointer, rows and columns. *)
Theorem uref_cast_round_trip (v : DenseBase) :
  well_typed v ->
  uref_cast (derived v) (make_DenseURef v)
  = Returns (mkMap (Scalar (derived v)) (base_data v) (base_rows v) (base_cols v)).
Proof.
  intros (Hr & Hc & Hvec). unfold uref_cast, make_DenseURef. simpl.
  assert (E : ScalarType_eqb (get_type (Scalar (derived v)))
                (get_type (Scalar (derived v))) = true)
    by (apply ScalarType_eqb_eq; reflexivity).
  rewrite E. simpl. f_equal. unfold make_map. simpl.
  destruct (IsVectorAtCompileTime (derived v)) eqn:Ev.
  - specialize (Hvec eq_refl). unfold Map_vector. f_equal.
    + destruct (IsRowMajor v).
      * rewrite Hvec. simpl. symmetry. apply Hr. exact Hvec.
      * destruct (RowsAtCompileTime (derived v)) as [r|] eqn:Er; simpl;
          [symmetry; apply Hr; reflexivity|reflexivity].
    + destruct (IsRowMajor v).
      * destruct (ColsAtCompileTime (derived v)) as [c|] eqn:Ec; simpl;
          [symmetry; apply Hc; reflexivity|reflexivity].
      * rewrite Hvec. simpl. symmetry. apply Hc. exact Hvec.
  - unfold Map_matrix. f_equal.
    + destruct (RowsAtCompileTime (derived v)) as [r|] eqn:Er; simpl;
        [symmetry; apply Hr; reflexivity|reflexivity].
    + destruct (ColsAtCompileTime (derived v)) as [c|] eqn:Ec; simpl;
        [symmetry; apply Hc; reflexivity|reflexivity].
Qed.

(** A column of five floats read back as [ArrayXf]. *)
Lemma uref_cast_round_trip_witness :
  well_typed column5
  /\ uref_cast ArrayXf (make_DenseURef column5)
     = Returns (mkMap float_t 8192 5 1).
Proof.
  assert (H : well_typed column5).
  { unfold well_typed, column5. simpl. repeat split.
    - intros r Hr. discriminate.
    - intros c Hc. injection Hc as <-. reflexivity. }
  split; [exact H|]. exact (uref_cast_round_trip column5 H).
Defined.

End URefFacts.

(** ** Trimming followed by compaction, and growing shapes *)

Section PipelineFacts.
Import Foundation Construction.

Variable neighbours : Foundation.t -> Site -> list Site.

(** X15: trimming never enlarges the system: [finalize] after
    [trim_edges] returns at most the count that [finalize] returns
    without it. *)
Theorem finalize_after_trim_edges (F : Foundation.t) :
  length (is_valid F) = num_sites F ->
  exists F', trim_edges neighbours F = Some F'
    /\ (snd (finalize F') <= snd (finalize F))%Z.
Proof.
  intros Hlen.
  destruct (trim_sites_total neighbours (S (num_valid (is_valid F)))
              (seq 0 (num_sites F)) F) as (F' & H & Hle); [lia|].
  exists F'. split; [exact H|].
  destruct (trim_sites_erodes neighbours _ _ _ _ H)
    as (_ & _ & _ & Hd & _ & Hf & _ & _).
  rewrite (proj2 (finalize_indices F)), (proj2 (finalize_indices F')).
  rewrite !take_ge by lia. lia.
Qed.

Variable qr_solve_cast : list (list float) -> list float -> list Z.



End PipelineFacts.

(** The chain whose first site lies outside the shape, with the threshold
    2: untrimmed it compacts to four sites, trimmed to none. *)
Lemma finalize_after_trim_edges_witness :
  length (Foundation.is_valid (Fixtures.chain 2 [false; true; true; true; true]))
  = Foundation.num_sites (Fixtures.chain 2 [false; true; true; true; true])
  /\ snd (Foundation.finalize (Fixtures.chain 2 [false; true; true; true; true]))
     = 4%Z
  /\ exists F',
       Foundation.trim_edges Foundation.for_each_neighbour
         (Fixtures.chain 2 [false; true; true; true; true]) = Some F'
       /\ (snd (Foundation.finalize F') <= 4)%Z.
Proof.
  split; [reflexivity|]. split; [reflexivity|].
  exact (finalize_after_trim_edges Foundation.for_each_neighbour
           (Fixtures.chain 2 [false; true; true; true; true]) eq_refl).
Defined.
